(** * A shallow embedding of the scheduler core of [os_simulator.py]

    The development follows the Python source function by function.

    - Python integers are unbounded: they are [Z].
    - [time.time()] is a wall clock.  A session carries the clock as the
      sequence of readings it is going to deliver ([clock]) and the number
      of readings taken so far ([ticks]).  Readings are exact numbers (think
      of clock ticks): the only things the program does with them are
      subtraction, subtraction of an integer, and the truth test
      [if x:], which for a number means [x != 0].  For finite IEEE doubles
      [a - b] is zero exactly when [a = b], as for exact numbers.  The
      subtractions themselves are those of exact numbers: they are the
      source's as long as the readings and the total demand are integers of
      at most 2^53 in absolute value ([exact_as_double]); beyond that the
      source rounds, and raises [OverflowError] for a demand outside the
      range of a double, which is not modelled.  The theorem on the values
      the timing queries return in the sessions that can be reached carries
      that bound.
    - Algorithm names are strings of bytes; [lower] and [upper] are
      [str.lower] and [str.upper] on ASCII letters and leave every other
      byte as it is.
    - [Process] objects are mutable and shared between [self.processes] and
      [self.rr_queue].  The table [processes] owns the objects; an object is
      designated by its position in the table (the table is append-only), and
      the rotation queue holds such references, so that a mutation through
      either alias is seen through the other.
    - [print] appends a line to the console of the session; a line is kept
      as the message template with the values formatted into it. *)

From Stdlib Require Import ZArith Lia Ascii.
From stdpp Require Import base list strings.

Local Open Scope Z_scope.

(** ** Strings: [str.lower] and [str.upper] on ASCII names *)

Definition lower_char (c : ascii) : ascii :=
  let n := N_of_ascii c in
  if ((65 <=? n) && (n <=? 90))%N then ascii_of_N (n + 32) else c.

Definition upper_char (c : ascii) : ascii :=
  let n := N_of_ascii c in
  if ((97 <=? n) && (n <=? 122))%N then ascii_of_N (n - 32) else c.

Fixpoint lower (s : string) : string :=
  match s with
  | EmptyString => EmptyString
  | String c s' => String (lower_char c) (lower s')
  end.

Fixpoint upper (s : string) : string :=
  match s with
  | EmptyString => EmptyString
  | String c s' => String (upper_char c) (upper s')
  end.

(** ** Process entity *)

Inductive ProcessState : Type :=
  | PRONTO
  | EXECUTANDO
  | BLOQUEADO
  | FINALIZADO.

Definition state_eqb (a b : ProcessState) : bool :=
  match a, b with
  | PRONTO, PRONTO | EXECUTANDO, EXECUTANDO
  | BLOQUEADO, BLOQUEADO | FINALIZADO, FINALIZADO => true
  | _, _ => false
  end.

Record Process : Type := mkProcess {
  pid : Z;
  name : string;
  cpu_time : Z;
  cpu_remaining : Z;
  memory : Z;
  priority : Z;
  state : ProcessState;
  arrival_time : Z;
  finish_time : option Z
}.

(** [Process.__init__]; [now] is the reading [time.time()] returns. *)
Definition Process_init (pid : Z) (name : string) (cpu_time memory priority : Z)
    (now : Z) : Process :=
  {| pid := pid;
     name := name;
     cpu_time := Z.max 1 cpu_time;
     cpu_remaining := Z.max 1 cpu_time;
     memory := memory;
     priority := priority;
     state := PRONTO;
     arrival_time := now;
     finish_time := None |}.

(** Attribute assignments [p.state = v], [p.cpu_remaining = v] and
    [p.finish_time = v]. *)
Definition set_state (v : ProcessState) (p : Process) : Process :=
  {| pid := pid p; name := name p; cpu_time := cpu_time p;
     cpu_remaining := cpu_remaining p; memory := memory p;
     priority := priority p; state := v;
     arrival_time := arrival_time p; finish_time := finish_time p |}.

Definition set_cpu_remaining (v : Z) (p : Process) : Process :=
  {| pid := pid p; name := name p; cpu_time := cpu_time p;
     cpu_remaining := v; memory := memory p;
     priority := priority p; state := state p;
     arrival_time := arrival_time p; finish_time := finish_time p |}.

Definition set_finish_time (v : option Z) (p : Process) : Process :=
  {| pid := pid p; name := name p; cpu_time := cpu_time p;
     cpu_remaining := cpu_remaining p; memory := memory p;
     priority := priority p; state := state p;
     arrival_time := arrival_time p; finish_time := v |}.

(** Truth value of an [Optional[float]]: [None] and zero are false. *)
Definition truthy (x : option Z) : bool :=
  match x with
  | None => false
  | Some v => negb (v =? 0)
  end.

(** Property [turnaround_time]. *)
Definition turnaround_time (p : Process) : option Z :=
  if truthy (finish_time p) then
    match finish_time p with
    | Some f => Some (f - arrival_time p)
    | None => None
    end
  else None.

(** Property [waiting_time]. *)
Definition waiting_time (p : Process) : option Z :=
  if truthy (turnaround_time p) then
    match turnaround_time p with
    | Some t => Some (t - cpu_time p)
    | None => None
    end
  else None.

(** ** The operating system object and the session around it *)

(** A reference to a [Process] object: its position in the table. *)
Abbreviation ref := nat.

Record OperatingSystem : Type := mkOS {
  processes : list Process;
  next_pid : Z;
  quantum : Z;
  rr_queue : list ref
}.

(** What [print] writes, one constructor per message of the source. *)
Inductive Line : Type :=
  | MsgCreated (pid : Z) (name : string) (cpu memory priority : Z)
  | MsgNoProcess
  | MsgTableHeader
  | MsgTableRule
  | MsgTableRow (pid : Z) (name : string) (remaining total memory priority : Z)
      (st : ProcessState)
  | MsgNotFound (pid : Z)
  | MsgAlreadyFinished (pid : Z)
  | MsgBlocked (pid : Z)
  | MsgUnblocked (pid : Z)
  | MsgNotBlocked (pid : Z)
  | MsgKilled (pid : Z)
  | MsgRunning (algorithm : string)
  | MsgAllFinished
  | MsgNoneReady
  | MsgInvalidAlgorithm (algorithm : string)
  | MsgCycle (cycle : Z) (name : string) (pid : Z) (remaining : Z)
  | MsgProcessFinished (pid : Z)
  | MsgConcluded (cycles : Z)
  | MsgMetricsHeader
  | MsgMetricsTimed (pid : Z) (name : string) (st : ProcessState)
      (turnaround waiting : option Z)
  | MsgMetricsPlain (pid : Z) (name : string) (st : ProcessState).

Record Session : Type := mkSession {
  sys : OperatingSystem;
  clock : nat -> Z;
  ticks : nat;
  stdout : list Line
}.

Definition print (l : Line) (s : Session) : Session :=
  {| sys := sys s; clock := clock s; ticks := ticks s;
     stdout := stdout s ++ [l] |}.

Definition time_time (s : Session) : Z * Session :=
  (clock s (ticks s),
   {| sys := sys s; clock := clock s; ticks := S (ticks s);
      stdout := stdout s |}).

Definition with_sys (f : OperatingSystem -> OperatingSystem) (s : Session) : Session :=
  {| sys := f (sys s); clock := clock s; ticks := ticks s;
     stdout := stdout s |}.

(** Mutation of the object behind reference [r]. *)
Definition mutate_os (r : ref) (f : Process -> Process) (o : OperatingSystem)
    : OperatingSystem :=
  {| processes := alter f r (processes o); next_pid := next_pid o;
     quantum := quantum o; rr_queue := rr_queue o |}.

Definition mutate (r : ref) (f : Process -> Process) (s : Session) : Session :=
  with_sys (mutate_os r f) s.

Definition set_rr_queue (q : list ref) (o : OperatingSystem) : OperatingSystem :=
  {| processes := processes o; next_pid := next_pid o;
     quantum := quantum o; rr_queue := q |}.

(** [OperatingSystem.__init__]. *)
Definition OperatingSystem_init (quantum : Z) : OperatingSystem :=
  {| processes := []; next_pid := 1; quantum := quantum; rr_queue := [] |}.

(** A fresh session: a new [OperatingSystem], an untouched clock, an empty
    console. *)
Definition boot (quantum : Z) (clk : nat -> Z) : Session :=
  {| sys := OperatingSystem_init quantum; clock := clk; ticks := 0%nat;
     stdout := [] |}.

(** ** CRUD *)

Definition create_process (name : string) (cpu_time memory priority : Z)
    (s : Session) : Session :=
  let (now, s) := time_time s in
  let process := Process_init (next_pid (sys s)) name cpu_time memory priority now in
  let here : ref := length (processes (sys s)) in
  let s := with_sys (fun o =>
    {| processes := processes o ++ [process]; next_pid := next_pid o;
       quantum := quantum o; rr_queue := rr_queue o |}) s in
  let s := with_sys (fun o => set_rr_queue (rr_queue o ++ [here]) o) s in
  let s := with_sys (fun o =>
    {| processes := processes o; next_pid := next_pid o + 1;
       quantum := quantum o; rr_queue := rr_queue o |}) s in
  print (MsgCreated (pid process) name cpu_time memory priority) s.

Definition list_processes (s : Session) : Session :=
  match processes (sys s) with
  | [] => print MsgNoProcess s
  | _ =>
    let s := print MsgTableHeader s in
    let s := print MsgTableRule s in
    fold_left (fun s p =>
      print (MsgTableRow (pid p) (name p) (cpu_remaining p) (cpu_time p)
               (memory p) (priority p) (state p)) s) (processes (sys s)) s
  end.

(** First object of the table whose [pid] is the one asked for. *)
Fixpoint find_pid (wanted : Z) (here : ref) (ps : list Process) : option ref :=
  match ps with
  | [] => None
  | p :: ps' => if pid p =? wanted then Some here else find_pid wanted (S here) ps'
  end.

Definition get_process_by_pid (wanted : Z) (o : OperatingSystem) : option ref :=
  find_pid wanted 0%nat (processes o).

(** The state of the object behind [r]. *)
Definition state_is (st : ProcessState) (ps : list Process) (r : ref) : bool :=
  match ps !! r with
  | Some p => state_eqb (state p) st
  | None => false
  end.

(** ** State control *)

Definition block_process (wanted : Z) (s : Session) : Session :=
  match get_process_by_pid wanted (sys s) with
  | None => print (MsgNotFound wanted) s
  | Some process =>
    if state_is FINALIZADO (processes (sys s)) process then
      print (MsgAlreadyFinished wanted) s
    else
      let s := mutate process (set_state BLOQUEADO) s in
      print (MsgBlocked wanted) s
  end.

Definition unblock_process (wanted : Z) (s : Session) : Session :=
  match get_process_by_pid wanted (sys s) with
  | None => print (MsgNotFound wanted) s
  | Some process =>
    if state_is BLOQUEADO (processes (sys s)) process then
      let s := mutate process (set_state PRONTO) s in
      print (MsgUnblocked wanted) s
    else
      print (MsgNotBlocked wanted) s
  end.

Definition kill_process (wanted : Z) (s : Session) : Session :=
  match get_process_by_pid wanted (sys s) with
  | None => print (MsgNotFound wanted) s
  | Some process =>
    let s := mutate process (set_state FINALIZADO) s in
    let s := mutate process (set_cpu_remaining 0) s in
    let (now, s) := time_time s in
    let s := mutate process (set_finish_time (Some now)) s in
    print (MsgKilled wanted) s
  end.

(** ** Selection *)

(** [[p for p in self.processes if p.state == PRONTO]]: the Ready objects,
    in table order. *)
Definition get_ready_processes (o : OperatingSystem) : list ref :=
  List.filter (state_is PRONTO (processes o)) (seq 0 (length (processes o))).

(** Python's [min(xs, key=k)] on a non-empty list [first :: xs]: the first
    element of least key. *)
Fixpoint min_by (key : ref -> Z) (best : ref) (xs : list ref) : ref :=
  match xs with
  | [] => best
  | x :: xs' => min_by key (if key x <? key best then x else best) xs'
  end.

(** Reading an integer attribute of the object behind a reference. *)
Definition attr (f : Process -> Z) (ps : list Process) (r : ref) : Z :=
  match ps !! r with
  | Some p => f p
  | None => 0
  end.

Definition select_next_process_fifo (o : OperatingSystem) : option ref :=
  match get_ready_processes o with
  | [] => None
  | first :: _ => Some first
  end.

Definition select_next_process_sjf (o : OperatingSystem) : option ref :=
  match get_ready_processes o with
  | [] => None
  | first :: rest => Some (min_by (attr cpu_remaining (processes o)) first rest)
  end.

Definition select_next_process_prio (o : OperatingSystem) : option ref :=
  match get_ready_processes o with
  | [] => None
  | first :: rest => Some (min_by (attr priority (processes o)) first rest)
  end.

(** The [while self.rr_queue:] loop of [select_next_process_rr]: pops from
    the left until a Ready object comes out; gives the object found, if any,
    and what is left of the queue. *)
Fixpoint rr_pop (ps : list Process) (queue : list ref) : option ref * list ref :=
  match queue with
  | [] => (None, [])
  | proc :: queue' =>
    if state_is PRONTO ps proc then (Some proc, queue') else rr_pop ps queue'
  end.

Definition select_next_process_rr (o : OperatingSystem)
    : option ref * OperatingSystem :=
  let (found, queue') := rr_pop (processes o) (rr_queue o) in
  (found, set_rr_queue queue' o).

(** ** Metrics *)

(** The line [show_metrics] prints for one process. *)
Definition metrics_line (p : Process) : Line :=
  let t := turnaround_time p in
  let w := waiting_time p in
  if truthy t
  then MsgMetricsTimed (pid p) (name p) (state p) t w
  else MsgMetricsPlain (pid p) (name p) (state p).

Definition show_metrics (s : Session) : Session :=
  let s := print MsgMetricsHeader s in
  fold_left (fun s p => print (metrics_line p) s) (processes (sys s)) s.

(** ** The simulation *)

(** The [if]/[elif] chain of [run_simulation] that picks [current]; the
    outer [None] is the final [else] (no such algorithm). *)
Definition dispatch (algorithm : string) (o : OperatingSystem)
    : option (option ref * OperatingSystem) :=
  if String.eqb algorithm "fifo" then Some (select_next_process_fifo o, o)
  else if String.eqb algorithm "sjf" then Some (select_next_process_sjf o, o)
  else if String.eqb algorithm "prio" then Some (select_next_process_prio o, o)
  else if String.eqb algorithm "rr" then
    let (current, o) := select_next_process_rr o in
    match current with
    | Some c => Some (current, set_rr_queue (rr_queue o ++ [c]) o)
    | None => Some (current, o)
    end
  else None.

(** One unit of CPU for [current] (the body of the loop from
    [current.state = EXECUTANDO] on), with [cycle] already incremented. *)
Definition execute (current : ref) (cycle : Z) (s : Session) : Session :=
  let s := mutate current (set_state EXECUTANDO) s in
  let s := mutate current (fun p => set_cpu_remaining (cpu_remaining p - 1) p) s in
  match processes (sys s) !! current with
  | None => s
  | Some p =>
    let s := print (MsgCycle cycle (name p) (pid p) (cpu_remaining p)) s in
    if cpu_remaining p <=? 0 then
      let s := mutate current (set_state FINALIZADO) s in
      let (now, s) := time_time s in
      let s := mutate current (set_finish_time (Some now)) s in
      print (MsgProcessFinished (pid p)) s
    else
      mutate current (set_state PRONTO) s
  end.

(** How one pass through the body of [while True:] ends. *)
Inductive Exit : Type :=
  | Break (s : Session) (cycle : Z)
  | Return (s : Session).

Inductive Pass : Type :=
  | Continue (s : Session) (cycle : Z)
  | Leave (how : Exit).

Definition loop_body (algorithm : string) (s : Session) (cycle : Z) : Pass :=
  match get_ready_processes (sys s) with
  | [] =>
    let non_finalized :=
      List.filter (fun p => negb (state_eqb (state p) FINALIZADO))
        (processes (sys s)) in
    match non_finalized with
    | [] => Leave (Break (print MsgAllFinished s) cycle)
    | _ => Leave (Break (print MsgNoneReady s) cycle)
    end
  | _ =>
    match dispatch algorithm (sys s) with
    | None => Leave (Return (print (MsgInvalidAlgorithm algorithm) s))
    | Some (None, o) => Leave (Break (with_sys (fun _ => o) s) cycle)
    | Some (Some current, o) =>
      let s := with_sys (fun _ => o) s in
      Continue (execute current (cycle + 1) s) (cycle + 1)
    end
  end.

(** [while True:], unfolded at most [fuel] times; [None] when the fuel is
    used up before the loop is left. *)
Fixpoint run_loop (fuel : nat) (algorithm : string) (s : Session) (cycle : Z)
    : option Exit :=
  match fuel with
  | O => None
  | S fuel' =>
    match loop_body algorithm s cycle with
    | Continue s' cycle' => run_loop fuel' algorithm s' cycle'
    | Leave how => Some how
    end
  end.

(** CPU units the Ready processes still ask for; a Ready process asks for
    one unit at least, since it is finished only after it has run. *)
Definition demand (p : Process) : nat :=
  match state p with
  | PRONTO => Z.to_nat (Z.max 1 (cpu_remaining p))
  | _ => 0%nat
  end.

Definition workload (o : OperatingSystem) : nat :=
  foldr (fun p n => (demand p + n)%nat) 0%nat (processes o).

(** What follows the loop: after a [break] the summary and the metrics,
    after the [return] of the last [else] nothing. *)
Definition after_loop (how : Exit) : Session :=
  match how with
  | Break s cycle =>
    let s := print (MsgConcluded cycle) s in
    show_metrics s
  | Return s => s
  end.

(** [run_simulation].  The loop is given one pass per unit of workload and
    one more to find that nothing is left, which is all it ever takes (see
    [run_loop_enough]); the last branch of the [match] is never taken. *)
Definition run_simulation (algorithm : string) (s : Session) : Session :=
  let algorithm := lower algorithm in
  let s := print (MsgRunning (upper algorithm)) s in
  match run_loop (S (workload (sys s))) algorithm s 0 with
  | Some how => after_loop how
  | None => s
  end.

(** ** Sessions driven by the command loop *)

Inductive Command : Type :=
  | CmdCreate (name : string) (cpu_time memory priority : Z)
  | CmdList
  | CmdRun (algorithm : string)
  | CmdBlock (pid : Z)
  | CmdUnblock (pid : Z)
  | CmdKill (pid : Z).

Definition perform (c : Command) (s : Session) : Session :=
  match c with
  | CmdCreate name cpu_time memory priority =>
    create_process name cpu_time memory priority s
  | CmdList => list_processes s
  | CmdRun algorithm => run_simulation algorithm s
  | CmdBlock pid => block_process pid s
  | CmdUnblock pid => unblock_process pid s
  | CmdKill pid => kill_process pid s
  end.

Definition perform_all (cs : list Command) (s : Session) : Session :=
  fold_left (fun s c => perform c s) cs s.

(** ** Vocabulary of the properties *)

(** What one unit of CPU makes of the process it is given, [now] being the
    clock reading taken if the process finishes. *)
Definition ran (now : Z) (p : Process) : Process :=
  let p := set_cpu_remaining (cpu_remaining p - 1) (set_state EXECUTANDO p) in
  if cpu_remaining p <=? 0
  then set_finish_time (Some now) (set_state FINALIZADO p)
  else set_state PRONTO p.

(** The sessions a command loop can be in: a fresh session, the session
    after any command, and, inside [run_simulation], the session after the
    opening message and after every pass of the loop.  (Passes are taken
    for any algorithm name and cycle count, which only adds sessions.) *)
Inductive reachable : Session -> Prop :=
  | reach_boot quantum clk : reachable (boot quantum clk)
  | reach_perform c s : reachable s -> reachable (perform c s)
  | reach_opening algorithm s :
      reachable s -> reachable (print (MsgRunning algorithm) s)
  | reach_pass algorithm s cycle s' cycle' :
      reachable s ->
      loop_body algorithm s cycle = Continue s' cycle' ->
      reachable s'.

(** A process that is not finished still has work to do, a finished one
    has none, and no process is left Running between passes. *)
Definition sound (p : Process) : Prop :=
  1 <= cpu_time p /\
  cpu_remaining p <= cpu_time p /\
  state p <> EXECUTANDO /\
  (state p = FINALIZADO -> cpu_remaining p = 0 /\ is_Some (finish_time p)) /\
  (state p <> FINALIZADO -> 1 <= cpu_remaining p /\ finish_time p = None).

(** The same operating system, and the same session, with another
    quantum stored. *)
Definition set_quantum (q : Z) (o : OperatingSystem) : OperatingSystem :=
  {| processes := processes o; next_pid := next_pid o;
     quantum := q; rr_queue := rr_queue o |}.

Definition requantum (q : Z) (s : Session) : Session :=
  with_sys (set_quantum q) s.

Definition requantum_exit (q : Z) (how : Exit) : Exit :=
  match how with
  | Break s cycle => Break (requantum q s) cycle
  | Return s => Return (requantum q s)
  end.

Definition requantum_pass (q : Z) (pass : Pass) : Pass :=
  match pass with
  | Continue s cycle => Continue (requantum q s) cycle
  | Leave how => Leave (requantum_exit q how)
  end.

(** The session a pass ends in. *)
Definition pass_session (pass : Pass) : Session :=
  match pass with
  | Continue s _ => s
  | Leave (Break s _) => s
  | Leave (Return s) => s
  end.

(** No Ready object among those of [xs]. *)
Definition none_ready (ps : list Process) (xs : list ref) : Prop :=
  Forall (fun x => state_is PRONTO ps x = false) xs.

(** The rotation queue holds objects of the table, each once. *)
Definition queue_ok (o : OperatingSystem) : Prop :=
  NoDup (rr_queue o) /\
  Forall (fun r => (r < length (processes o))%nat) (rr_queue o).

(** The loop is left by [break]: the run ends with the summary and the
    metrics, as it does when all processes are finished. *)
Definition normal_completion (how : Exit) : bool :=
  match how with
  | Break _ _ => true
  | Return _ => false
  end.

(** The algorithm names the [if]/[elif] chain knows. *)
Definition known_algorithm (algorithm : string) : bool :=
  String.eqb algorithm "fifo" || String.eqb algorithm "sjf"
  || String.eqb algorithm "prio" || String.eqb algorithm "rr".

(** A clock for examples: the n-th reading is [1000 + n]. *)
Definition steady_clock : nat -> Z := fun n => 1000 + Z.of_nat n.

(** A clock that is read twice within one tick. *)
Definition coarse_clock : nat -> Z := fun _ => 1000.

(** ** Vocabulary of the further properties *)

(** Identifiers follow the table: the object at position [i] has the
    identifier [i + 1], and the next identifier is one past the last. *)
Definition numbered (o : OperatingSystem) : Prop :=
  next_pid o = Z.of_nat (length (processes o)) + 1 /\
  forall (i : nat) p, processes o !! i = Some p -> pid p = Z.of_nat i + 1.

(** The fields of a process that are given at creation. *)
Definition same_identity (p p' : Process) : Prop :=
  pid p' = pid p /\ name p' = name p /\ cpu_time p' = cpu_time p /\
  memory p' = memory p /\ priority p' = priority p /\
  arrival_time p' = arrival_time p.

(** The cycle numbers printed on a console, in order. *)
Fixpoint cycle_numbers (out : list Line) : list Z :=
  match out with
  | [] => []
  | MsgCycle cycle _ _ _ :: out' => cycle :: cycle_numbers out'
  | _ :: out' => cycle_numbers out'
  end.

(** The timestamps of a process are readings of the clock [clk] taken
    among the first [n], the completion after the creation. *)
Definition stamped (clk : nat -> Z) (n : nat) (p : Process) : Prop :=
  exists k : nat,
    (k < n)%nat /\ arrival_time p = clk k /\
    match finish_time p with
    | None => True
    | Some f => exists j : nat, (k < j < n)%nat /\ f = clk j
    end.

(** The notice of a run that finds no Ready process: the test
    [if not non_finalized] of the loop. *)
Definition idle_notice (ps : list Process) : Line :=
  match List.filter (fun p => negb (state_eqb (state p) FINALIZADO)) ps with
  | [] => MsgAllFinished
  | _ => MsgNoneReady
  end.

(** The row [list_processes] prints for a process. *)
Definition table_row (p : Process) : Line :=
  MsgTableRow (pid p) (name p) (cpu_remaining p) (cpu_time p)
    (memory p) (priority p) (state p).

(** The remaining demand of the Ready processes of a table, added up. *)
Definition ready_demand (ps : list Process) : Z :=
  foldr (fun p n => (if state_eqb (state p) PRONTO then cpu_remaining p else 0) + n)
    0 ps.

(** The timestamps of every process of a session are readings its clock
    has delivered. *)
Definition timed (s : Session) : Prop :=
  Forall (stamped (clock s) (ticks s)) (processes (sys s)).

(** Every Ready process of the table is in the rotation queue. *)
Definition queue_covers (o : OperatingSystem) : Prop :=
  forall j : nat, In j (get_ready_processes o) -> In j (rr_queue o).

(** Integers a double holds exactly, with their sums and differences
    within the range. *)
Definition exact_as_double (x : Z) : Prop := - 2 ^ 53 <= x <= 2 ^ 53.

(** [run_simulation] with the two string methods it calls, [str.lower]
    and [str.upper], taken as parameters. *)
Definition run_simulation_under (low up : string -> string)
    (algorithm : string) (s : Session) : Session :=
  let algorithm := low algorithm in
  let s := print (MsgRunning (up algorithm)) s in
  match run_loop (S (workload (sys s))) algorithm s 0 with
  | Some how => after_loop how
  | None => s
  end.

(** * Properties *)

(** ** Strings *)

Section Strings.

Lemma lower_char_idempotent c : lower_char (lower_char c) = lower_char c.
Proof. destruct c as [[] [] [] [] [] [] [] []]; reflexivity. Qed.

Lemma lower_idempotent s : lower (lower s) = lower s.
Proof.
  induction s as [|c s IH]; simpl; [reflexivity|].
  now rewrite lower_char_idempotent, IH.
Qed.

End Strings.

(** ** The store of process objects *)

Section Store.

Implicit Types (p : Process) (ps : list Process) (r : ref).

Lemma state_eqb_eq a b : state_eqb a b = true <-> a = b.
Proof. destruct a, b; simpl; split; congruence. Qed.

Lemma state_eqb_neq a b : state_eqb a b = false <-> a <> b.
Proof. destruct a, b; simpl; split; congruence. Qed.

Lemma state_is_true st ps r :
  state_is st ps r = true <-> exists p, ps !! r = Some p /\ state p = st.
Proof.
  unfold state_is. destruct (ps !! r) as [p|].
  - rewrite state_eqb_eq. split; [eauto|]. now intros (q & [= ->] & H).
  - split; [discriminate|]. now intros (q & [= ] & _).
Qed.

Lemma state_is_lookup st ps r p :
  ps !! r = Some p -> state_is st ps r = state_eqb (state p) st.
Proof. unfold state_is. now intros ->. Qed.

(** Members of the ready set are Ready objects of the table. *)
Lemma ready_is_ready o r :
  In r (get_ready_processes o) -> state_is PRONTO (processes o) r = true.
Proof. unfold get_ready_processes. rewrite filter_In. tauto. Qed.

Lemma min_by_In key best xs : In (min_by key best xs) (best :: xs).
Proof.
  revert best. induction xs as [|x xs IH]; intros best; simpl; [tauto|].
  destruct (IH (if key x <? key best then x else best)) as [H|H]; [|tauto].
  destruct (key x <? key best); rewrite <- H; tauto.
Qed.

Lemma rr_pop_ready ps queue r rest :
  rr_pop ps queue = (Some r, rest) -> state_is PRONTO ps r = true.
Proof.
  induction queue as [|x queue IH]; simpl; [discriminate|].
  destruct (state_is PRONTO ps x) eqn:E; [|exact IH].
  now intros [= <- _].
Qed.

End Store.

(** ** The engine, one pass at a time *)

Section Engine.

Implicit Types (s : Session) (o : OperatingSystem) (p : Process)
  (ps : list Process) (r : ref).

Lemma alter_as_insert (f : Process -> Process) ps r p :
  ps !! r = Some p -> alter f r ps = <[r := f p]> ps.
Proof.
  intros H. rewrite list_insert_alter.
  apply list_alter_ext; [|reflexivity].
  intros x Hx. congruence.
Qed.

(** What the chain of selections returns is a Ready object, and it leaves
    the table alone. *)
Lemma dispatch_frame algorithm o found o' :
  dispatch algorithm o = Some (found, o') ->
  processes o' = processes o /\ next_pid o' = next_pid o /\
  quantum o' = quantum o.
Proof.
  unfold dispatch, select_next_process_rr.
  destruct (String.eqb algorithm "fifo"); [now intros [= _ <-]|].
  destruct (String.eqb algorithm "sjf"); [now intros [= _ <-]|].
  destruct (String.eqb algorithm "prio"); [now intros [= _ <-]|].
  destruct (String.eqb algorithm "rr"); [|discriminate].
  destruct (rr_pop (processes o) (rr_queue o)) as [[c|] rest];
    now intros [= _ <-].
Qed.

Lemma dispatch_ready algorithm o r o' :
  dispatch algorithm o = Some (Some r, o') ->
  state_is PRONTO (processes o) r = true.
Proof.
  unfold dispatch, select_next_process_fifo, select_next_process_sjf,
    select_next_process_prio, select_next_process_rr.
  destruct (String.eqb algorithm "fifo").
  { destruct (get_ready_processes o) as [|a l] eqn:E; intros [= <- _].
    apply ready_is_ready. rewrite E. now left. }
  destruct (String.eqb algorithm "sjf").
  { destruct (get_ready_processes o) as [|a l] eqn:E; intros [= <- _].
    apply ready_is_ready. rewrite E. apply min_by_In. }
  destruct (String.eqb algorithm "prio").
  { destruct (get_ready_processes o) as [|a l] eqn:E; intros [= <- _].
    apply ready_is_ready. rewrite E. apply min_by_In. }
  destruct (String.eqb algorithm "rr"); [|discriminate].
  destruct (rr_pop (processes o) (rr_queue o)) as [[c|] rest] eqn:E;
    intros [= <- _].
  eapply rr_pop_ready, E.
Qed.

(** One unit of CPU rewrites the object it is given, prints the cycle and,
    if the object is finished by it, reads the clock once and says so. *)
Lemma execute_unfold r cycle s p :
  processes (sys s) !! r = Some p ->
  execute r cycle s =
  {| sys := {| processes := <[r := ran (clock s (ticks s)) p]> (processes (sys s));
               next_pid := next_pid (sys s);
               quantum := quantum (sys s);
               rr_queue := rr_queue (sys s) |};
     clock := clock s;
     ticks := if cpu_remaining p - 1 <=? 0 then S (ticks s) else ticks s;
     stdout := stdout s ++
       MsgCycle cycle (name p) (pid p) (cpu_remaining p - 1) ::
       (if cpu_remaining p - 1 <=? 0 then [MsgProcessFinished (pid p)] else []) |}.
Proof.
  intros Hp. unfold execute, ran.
  destruct s as [[ps np q rq] clk tk out]. simpl in Hp.
  cbn [mutate with_sys sys processes mutate_os].
  rewrite !list_lookup_alter_eq, Hp.
  cbn [fmap option_fmap option_map cpu_remaining set_cpu_remaining set_state
       name pid].
  destruct (cpu_remaining p - 1 <=? 0);
    unfold print, mutate, with_sys, mutate_os; cbn;
    rewrite ?list_alter_alter_eq, (alter_as_insert _ _ _ _ Hp);
    rewrite <- ?app_assoc; reflexivity.
Qed.

Lemma execute_spec r cycle s p :
  processes (sys s) !! r = Some p ->
  let p' := ran (clock s (ticks s)) p in
  processes (sys (execute r cycle s)) = <[r := p']> (processes (sys s)) /\
  next_pid (sys (execute r cycle s)) = next_pid (sys s) /\
  quantum (sys (execute r cycle s)) = quantum (sys s) /\
  rr_queue (sys (execute r cycle s)) = rr_queue (sys s) /\
  clock (execute r cycle s) = clock s.
Proof.
  intros Hp p'. rewrite (execute_unfold _ _ _ _ Hp). simpl. auto.
Qed.

Lemma workload_insert ps (i : nat) p p' :
  ps !! i = Some p ->
  (foldr (fun p n => demand p + n) 0 (<[i := p']> ps) + demand p =
   foldr (fun p n => demand p + n) 0 ps + demand p')%nat.
Proof.
  revert i. induction ps as [|a ps IH]; intros [|i]; simpl; try discriminate.
  - intros [= ->]. lia.
  - intros H. specialize (IH i H). lia.
Qed.

Lemma ran_demand now p : state p = PRONTO -> (demand (ran now p) < demand p)%nat.
Proof.
  intros Hst. unfold ran, demand. rewrite Hst. simpl.
  destruct (cpu_remaining p - 1 <=? 0) eqn:E; simpl; lia.
Qed.

(** A pass that goes on has run a Ready object for one unit. *)
Lemma loop_body_continue algorithm s cycle s' cycle' :
  loop_body algorithm s cycle = Continue s' cycle' ->
  exists r p,
    processes (sys s) !! r = Some p /\ state p = PRONTO /\
    processes (sys s') = <[r := ran (clock s (ticks s)) p]> (processes (sys s)) /\
    next_pid (sys s') = next_pid (sys s) /\
    quantum (sys s') = quantum (sys s) /\
    clock s' = clock s /\
    cycle' = cycle + 1.
Proof.
  unfold loop_body.
  destruct (get_ready_processes (sys s)).
  { destruct (List.filter _ _); discriminate. }
  destruct (dispatch algorithm (sys s)) as [[[r|] o]|] eqn:D; try discriminate.
  intros [= <- <-].
  destruct (dispatch_frame _ _ _ _ D) as (Hps & Hn & Hq).
  apply dispatch_ready, state_is_true in D. destruct D as (p & Hp & Hst).
  exists r, p.
  destruct (execute_spec r (cycle + 1) (with_sys (fun _ => o) s) p) as (E1 & E2 & E3 & E4 & E5).
  { simpl. now rewrite Hps. }
  simpl in *. rewrite E1, E2, E3, E5, Hps.
  repeat split; assumption || reflexivity.
Qed.

Lemma loop_body_decreases algorithm s cycle s' cycle' :
  loop_body algorithm s cycle = Continue s' cycle' ->
  (workload (sys s') < workload (sys s))%nat.
Proof.
  intros H. apply loop_body_continue in H.
  destruct H as (r & p & Hp & Hst & Hps & _).
  unfold workload. rewrite Hps.
  pose proof (workload_insert _ _ _ (ran (clock s (ticks s)) p) Hp).
  pose proof (ran_demand (clock s (ticks s)) p Hst). lia.
Qed.

(** The loop is left within one pass per unit of workload, plus one. *)
Lemma run_loop_enough fuel algorithm s cycle :
  (workload (sys s) < fuel)%nat ->
  exists how, run_loop fuel algorithm s cycle = Some how.
Proof.
  revert s cycle. induction fuel as [|fuel IH]; intros s cycle Hlt; [lia|].
  simpl. destruct (loop_body algorithm s cycle) as [s' cycle'|how] eqn:E.
  - apply IH. apply loop_body_decreases in E. lia.
  - eauto.
Qed.

(** More fuel than needed changes nothing. *)
Lemma run_loop_more fuel fuel' algorithm s cycle how :
  run_loop fuel algorithm s cycle = Some how ->
  (fuel <= fuel')%nat ->
  run_loop fuel' algorithm s cycle = Some how.
Proof.
  revert fuel' s cycle. induction fuel as [|fuel IH]; intros fuel' s cycle;
    [discriminate|].
  intros H Hle. destruct fuel' as [|fuel']; [lia|]. simpl in *.
  destruct (loop_body algorithm s cycle); [|assumption].
  apply IH; [assumption|lia].
Qed.

(** Loop invariants: what holds at the head of the loop and is kept by
    every pass that goes on holds where the loop is left. *)
Lemma run_loop_invariant (I : Session -> Z -> Prop) algorithm :
  (forall s cycle s' cycle',
     I s cycle -> loop_body algorithm s cycle = Continue s' cycle' ->
     I s' cycle') ->
  forall fuel s cycle how,
    I s cycle -> run_loop fuel algorithm s cycle = Some how ->
    exists s0 cycle0,
      I s0 cycle0 /\ loop_body algorithm s0 cycle0 = Leave how.
Proof.
  intros Hkeep fuel. induction fuel as [|fuel IH]; intros s cycle how HI;
    [discriminate|].
  simpl. destruct (loop_body algorithm s cycle) as [s' cycle'|how'] eqn:E.
  - apply IH. eapply Hkeep; eassumption.
  - intros [= <-]. eauto.
Qed.

End Engine.

(** ** Claims about single operations *)

Section Operations.

(** The timing queries where the truth tests of the source let them
    through: a completion reading that is neither zero nor the creation
    reading. *)
Lemma timing_queries_nonzero p f :
  finish_time p = Some f -> f <> 0 -> f <> arrival_time p ->
  turnaround_time p = Some (f - arrival_time p) /\
  waiting_time p = Some (f - arrival_time p - cpu_time p).
Proof.
  intros Hf H0 Ha. unfold waiting_time, turnaround_time, truthy. rewrite Hf.
  destruct (f =? 0) eqn:E0; [lia|]. simpl.
  destruct (f - arrival_time p =? 0) eqn:E1; [lia|]. auto.
Qed.

Lemma timing_queries_unset p :
  finish_time p = None -> turnaround_time p = None /\ waiting_time p = None.
Proof.
  intros Hf. unfold waiting_time, turnaround_time, truthy. now rewrite Hf.
Qed.

(** C4, at the input where the code departs from it.  A process created
    and killed within one tick of the clock has its completion timestamp
    set and a turnaround of zero; the truth test [if self.turnaround_time:]
    takes the zero for an absent value, and the waiting time is [None]
    where the claim has [turnaround - cpu_time = -3]. *)
Theorem waiting_time_lost_on_zero_turnaround :
  let s := perform_all [CmdCreate "P1" 3 100 3; CmdKill 1] (boot 2 coarse_clock) in
  exists p,
    processes (sys s) = [p] /\
    cpu_time p = 3 /\
    arrival_time p = 1000 /\
    finish_time p = Some 1000 /\
    turnaround_time p = Some 0 /\
    waiting_time p = None /\
    waiting_time p <> Some (0 - cpu_time p).
Proof. eexists. vm_compute. repeat split; discriminate. Qed.

(** C1, at the input where the code departs from it.  A process finished
    by a run at clock reading 1001 is killed afterwards: [kill_process] has
    no test for FINALIZADO, prints the ordinary notice and stamps the
    process again with the new reading, whereas [block_process] on the same
    session does print the notice of a finished process and changes
    nothing. *)
Theorem kill_finished_restamps :
  let s := perform_all [CmdCreate "P1" 1 100 3; CmdRun "fifo"] (boot 2 steady_clock) in
  (exists p, processes (sys s) = [p] /\ state p = FINALIZADO /\
     finish_time p = Some 1001 /\ cpu_remaining p = 0) /\
  (exists p', processes (sys (kill_process 1 s)) = [p'] /\
     state p' = FINALIZADO /\ finish_time p' = Some 1002 /\
     cpu_remaining p' = 0) /\
  stdout (kill_process 1 s) = stdout s ++ [MsgKilled 1] /\
  stdout (block_process 1 s) = stdout s ++ [MsgAlreadyFinished 1] /\
  sys (block_process 1 s) = sys s.
Proof.
  vm_compute. split; [|split]; [eexists; repeat split..|];
    repeat split; reflexivity.
Qed.

(** What [kill_process] does to a process it finds, finished or not. *)
Lemma kill_process_found wanted s r p :
  get_process_by_pid wanted (sys s) = Some r ->
  processes (sys s) !! r = Some p ->
  processes (sys (kill_process wanted s)) =
    <[r := set_finish_time (Some (clock s (ticks s)))
             (set_cpu_remaining 0 (set_state FINALIZADO p))]> (processes (sys s)) /\
  stdout (kill_process wanted s) = stdout s ++ [MsgKilled wanted].
Proof.
  intros Hr Hp. unfold kill_process. rewrite Hr.
  unfold time_time, print, mutate, with_sys, mutate_os. cbn.
  rewrite !list_alter_alter_eq, (alter_as_insert _ _ _ _ Hp). auto.
Qed.

(** C8: two processes of demand 2 under Round-Robin, from an empty
    session, whatever the quantum, the clock, the memory and the priority:
    the console shows P1, P2, P1 (finished), P2 (finished), the notice that
    all processes are finished and the summary with 4 cycles, and both
    processes end Finished with nothing left to run. *)
Theorem round_robin_scenario :
  forall quantum clk m1 p1 m2 p2,
    let s := perform_all [CmdCreate "P1" 2 m1 p1; CmdCreate "P2" 2 m2 p2]
               (boot quantum clk) in
    let P1 := {| pid := 1; name := "P1"; cpu_time := 2; cpu_remaining := 0;
                 memory := m1; priority := p1; state := FINALIZADO;
                 arrival_time := clk 0%nat; finish_time := Some (clk 2%nat) |} in
    let P2 := {| pid := 2; name := "P2"; cpu_time := 2; cpu_remaining := 0;
                 memory := m2; priority := p2; state := FINALIZADO;
                 arrival_time := clk 1%nat; finish_time := Some (clk 3%nat) |} in
    stdout (run_simulation "rr" s) =
      stdout s ++
      [MsgRunning "RR";
       MsgCycle 1 "P1" 1 1;
       MsgCycle 2 "P2" 2 1;
       MsgCycle 3 "P1" 1 0; MsgProcessFinished 1;
       MsgCycle 4 "P2" 2 0; MsgProcessFinished 2;
       MsgAllFinished;
       MsgConcluded 4;
       MsgMetricsHeader; metrics_line P1; metrics_line P2] /\
    processes (sys (run_simulation "rr" s)) = [P1; P2] /\
    exists s', run_loop 5 "rr" (print (MsgRunning "RR") s) 0 = Some (Break s' 4).
Proof.
  intros. split; [vm_compute; reflexivity|].
  split; [vm_compute; reflexivity|].
  eexists. vm_compute. reflexivity.
Qed.

End Operations.

(** ** Claims about selection and the ways out of the loop *)

Section Selection.

Implicit Types (s : Session) (o : OperatingSystem) (ps : list Process).

Lemma print_frame l s :
  sys (print l s) = sys s /\ clock (print l s) = clock s /\
  ticks (print l s) = ticks s.
Proof. now unfold print. Qed.

Lemma show_lines_frame (line : Process -> Line) ps s :
  let s' := fold_left (fun s p => print (line p) s) ps s in
  sys s' = sys s /\ clock s' = clock s /\ ticks s' = ticks s /\
  stdout s' = stdout s ++ map line ps.
Proof.
  revert s. induction ps as [|p ps IH]; intros s; simpl.
  - now rewrite app_nil_r.
  - destruct (IH (print (line p) s)) as (H1 & H2 & H3 & H4).
    rewrite H1, H2, H3, H4. simpl. now rewrite <- app_assoc.
Qed.

Lemma show_metrics_frame s :
  sys (show_metrics s) = sys s /\ clock (show_metrics s) = clock s /\
  ticks (show_metrics s) = ticks s /\
  stdout (show_metrics s) =
    stdout s ++ MsgMetricsHeader :: map metrics_line (processes (sys s)).
Proof.
  unfold show_metrics.
  destruct (show_lines_frame metrics_line (processes (sys (print MsgMetricsHeader s)))
              (print MsgMetricsHeader s)) as (H1 & H2 & H3 & H4).
  rewrite H1, H2, H3, H4. simpl. now rewrite <- app_assoc.
Qed.

(** The pops of Round-Robin: the queue is a run of objects that are not
    Ready, then the one found, then what stays queued; or it holds no
    Ready object and is left empty. *)
Lemma rr_pop_spec ps queue :
  match rr_pop ps queue with
  | (Some r, rest) =>
    exists skipped,
      queue = skipped ++ r :: rest /\
      Forall (fun x => state_is PRONTO ps x = false) skipped /\
      state_is PRONTO ps r = true
  | (None, rest) =>
    rest = [] /\ Forall (fun x => state_is PRONTO ps x = false) queue
  end.
Proof.
  induction queue as [|x queue IH]; simpl; [auto|].
  destruct (state_is PRONTO ps x) eqn:E.
  - exists []. auto.
  - destruct (rr_pop ps queue) as [[r|] rest].
    + destruct IH as (skipped & -> & Hsk & Hr).
      exists (x :: skipped). auto.
    + destruct IH as (-> & Hall). auto.
Qed.

(** Rotation keeps the queue within what it was, without repeats, and
    what it skipped is out. *)
Lemma rotate_queue (skipped rest : list nat) (r : nat) :
  NoDup (skipped ++ r :: rest) ->
  NoDup (rest ++ [r]) /\
  forall x, In x skipped -> ~ In x (rest ++ [r]).
Proof.
  rewrite !NoDup_app, !NoDup_cons. setoid_rewrite <- list_elem_of_In.
  setoid_rewrite elem_of_app. setoid_rewrite elem_of_cons.
  setoid_rewrite elem_of_nil.
  intros (H1 & H2 & H3 & H4). split.
  - split; [assumption|]. split; [|split; [tauto|constructor]].
    intros x Hx [->|[]]. tauto.
  - intros x Hx. specialize (H2 x Hx). tauto.
Qed.

Lemma dispatch_queue algorithm o found o' :
  dispatch algorithm o = Some (found, o') ->
  incl (rr_queue o') (rr_queue o) /\
  (NoDup (rr_queue o) -> NoDup (rr_queue o')).
Proof.
  unfold dispatch, select_next_process_rr.
  destruct (String.eqb algorithm "fifo");
    [intros [= _ <-]; split; [apply incl_refl|auto]|].
  destruct (String.eqb algorithm "sjf");
    [intros [= _ <-]; split; [apply incl_refl|auto]|].
  destruct (String.eqb algorithm "prio");
    [intros [= _ <-]; split; [apply incl_refl|auto]|].
  destruct (String.eqb algorithm "rr"); [|discriminate].
  pose proof (rr_pop_spec (processes o) (rr_queue o)) as Hpop.
  destruct (rr_pop (processes o) (rr_queue o)) as [[r|] rest];
    intros [= _ <-]; simpl.
  - destruct Hpop as (skipped & -> & _). split.
    + intros x. rewrite !in_app_iff. simpl. tauto.
    + intros Hnd. now apply rotate_queue in Hnd.
  - destruct Hpop as (-> & _). split; [intros x []|constructor].
Qed.

Lemma execute_queue r cycle s :
  rr_queue (sys (execute r cycle s)) = rr_queue (sys s).
Proof.
  unfold execute.
  destruct (processes (sys (mutate r _ (mutate r _ s))) !! r) as [p|];
    [|reflexivity].
  destruct (cpu_remaining p <=? 0); reflexivity.
Qed.

(** No pass of the loop, under any name, adds to the queue. *)
Lemma loop_body_queue algorithm s cycle :
  let s' := pass_session (loop_body algorithm s cycle) in
  incl (rr_queue (sys s')) (rr_queue (sys s)) /\
  (NoDup (rr_queue (sys s)) -> NoDup (rr_queue (sys s'))).
Proof.
  unfold loop_body.
  destruct (get_ready_processes (sys s)).
  { destruct (List.filter _ _); simpl; split; auto using incl_refl. }
  destruct (dispatch algorithm (sys s)) as [[[r|] o]|] eqn:D; simpl;
    [| |split; auto using incl_refl].
  - rewrite execute_queue. simpl. eapply dispatch_queue, D.
  - eapply dispatch_queue, D.
Qed.

Lemma run_loop_queue fuel algorithm s cycle how :
  run_loop fuel algorithm s cycle = Some how ->
  incl (rr_queue (sys (after_loop how))) (rr_queue (sys s)).
Proof.
  revert s cycle. induction fuel as [|fuel IH]; intros s cycle; [discriminate|].
  simpl. pose proof (loop_body_queue algorithm s cycle) as [Hincl _].
  destruct (loop_body algorithm s cycle) as [s' cycle'|how'] eqn:E.
  - intros H. eapply incl_tran; [apply (IH _ _ H)|exact Hincl].
  - intros [= <-]. simpl in Hincl.
    destruct how' as [s' c'|s']; simpl; [|exact Hincl].
    destruct (show_metrics_frame (print (MsgConcluded c') s')) as (H1 & _).
    now rewrite H1.
Qed.

(** C7: the selection of Round-Robin, and the pass of the loop around
    it.  The queue is a run [skipped] of objects that are not Ready,
    followed either by a Ready object [r] and a rest, or by nothing.  In
    the first case the selection returns [r] and leaves [rest] as the queue,
    with everything skipped removed; the pass runs [r] and ends with the
    queue [rest ++ [r]]: only [r] was put back, at the tail.  In the second
    the selection returns none and leaves the queue empty, and the pass
    leaves the loop.  In both, an object skipped in this pass is not in the
    queue when the run is over (the queue being free of repeats, as queues
    filled by [create_process] are). *)
Theorem round_robin_discards s cycle :
  exists skipped found rest,
    none_ready (processes (sys s)) skipped /\
    select_next_process_rr (sys s) = (found, set_rr_queue rest (sys s)) /\
    match found with
    | Some r =>
      rr_queue (sys s) = skipped ++ r :: rest /\
      state_is PRONTO (processes (sys s)) r = true
    | None => rr_queue (sys s) = skipped /\ rest = []
    end /\
    (get_ready_processes (sys s) <> [] ->
     (exists s',
        match found with
        | Some r =>
          loop_body "rr" s cycle = Continue s' (cycle + 1) /\
          rr_queue (sys s') = rest ++ [r]
        | None =>
          loop_body "rr" s cycle = Leave (Break s' cycle) /\
          rr_queue (sys s') = []
        end) /\
     (NoDup (rr_queue (sys s)) ->
      forall x fuel how,
        In x skipped ->
        run_loop fuel "rr" s cycle = Some how ->
        ~ In x (rr_queue (sys (after_loop how))))).
Proof.
  pose proof (rr_pop_spec (processes (sys s)) (rr_queue (sys s))) as Hpop.
  assert (Hbody : forall pass,
    get_ready_processes (sys s) <> [] ->
    match dispatch "rr" (sys s) with
    | None => Leave (Return (print (MsgInvalidAlgorithm "rr") s))
    | Some (None, o) => Leave (Break (with_sys (fun _ => o) s) cycle)
    | Some (Some current, o) =>
      Continue (execute current (cycle + 1) (with_sys (fun _ => o) s)) (cycle + 1)
    end = pass ->
    loop_body "rr" s cycle = pass).
  { intros pass Hready <-. unfold loop_body.
    destruct (get_ready_processes (sys s)); [congruence|reflexivity]. }
  unfold dispatch in Hbody. cbn [String.eqb Ascii.eqb Bool.eqb] in Hbody.
  unfold select_next_process_rr in *.
  destruct (rr_pop (processes (sys s)) (rr_queue (sys s))) as [[r|] rest].
  - destruct Hpop as (skipped & Hq & Hsk & Hr).
    exists skipped, (Some r), rest.
    split; [exact Hsk|]. split; [reflexivity|]. split; [auto|].
    intros Hready. specialize (Hbody _ Hready eq_refl).
    split.
    + eexists. split; [exact Hbody|]. now rewrite execute_queue.
    + intros Hnd x fuel how Hx Hrun.
      destruct fuel as [|fuel]; [discriminate|].
      simpl in Hrun. rewrite Hbody in Hrun.
      apply run_loop_queue in Hrun. rewrite execute_queue in Hrun.
      simpl in Hrun. rewrite Hq in Hnd.
      apply rotate_queue in Hnd. destruct Hnd as [_ Hout].
      intros Hin. exact (Hout x Hx (Hrun x Hin)).
  - destruct Hpop as (-> & Hsk).
    exists (rr_queue (sys s)), None, [].
    split; [exact Hsk|]. split; [reflexivity|]. split; [auto|].
    intros Hready. specialize (Hbody _ Hready eq_refl).
    split.
    + eexists. split; [exact Hbody|reflexivity].
    + intros Hnd x fuel how Hx Hrun.
      destruct fuel as [|fuel]; [discriminate|].
      simpl in Hrun. rewrite Hbody in Hrun. injection Hrun as <-.
      simpl.
      destruct (show_metrics_frame
                  (print (MsgConcluded cycle)
                     (with_sys (fun _ => set_rr_queue [] (sys s)) s))) as (H1 & _).
      rewrite H1. simpl. tauto.
Qed.

Lemma round_robin_discards_witness :
  let s := perform_all [CmdCreate "A" 2 100 3; CmdCreate "B" 2 100 3; CmdBlock 1]
             (boot 2 steady_clock) in
  get_ready_processes (sys s) <> [] /\
  NoDup (rr_queue (sys s)) /\
  exists skipped found rest,
    none_ready (processes (sys s)) skipped /\
    select_next_process_rr (sys s) = (found, set_rr_queue rest (sys s)) /\
    match found with
    | Some r =>
      rr_queue (sys s) = skipped ++ r :: rest /\
      state_is PRONTO (processes (sys s)) r = true
    | None => rr_queue (sys s) = skipped /\ rest = []
    end /\
    (exists s',
       match found with
       | Some r =>
         loop_body "rr" s 0 = Continue s' (0 + 1) /\
         rr_queue (sys s') = rest ++ [r]
       | None =>
         loop_body "rr" s 0 = Leave (Break s' 0) /\
         rr_queue (sys s') = []
       end) /\
    (forall x fuel how,
       In x skipped ->
       run_loop fuel "rr" s 0 = Some how ->
       ~ In x (rr_queue (sys (after_loop how)))).
Proof.
  intros s.
  assert (Hready : get_ready_processes (sys s) <> []) by (vm_compute; discriminate).
  assert (Hnd : NoDup (rr_queue (sys s))).
  { apply (bool_decide_unpack _). vm_compute. exact I. }
  split; [exact Hready|]. split; [exact Hnd|].
  destruct (round_robin_discards s 0)
    as (skipped & found & rest & H1 & H2 & H3 & H4).
  exists skipped, found, rest.
  split; [exact H1|]. split; [exact H2|]. split; [exact H3|].
  destruct (H4 Hready) as (H5 & H6).
  split; [exact H5|exact (H6 Hnd)].
Defined.

Lemma dispatch_unknown algorithm o :
  known_algorithm algorithm = false -> dispatch algorithm o = None.
Proof.
  unfold known_algorithm, dispatch.
  destruct (String.eqb algorithm "fifo"); [discriminate|].
  destruct (String.eqb algorithm "sjf"); [discriminate|].
  destruct (String.eqb algorithm "prio"); [discriminate|].
  destruct (String.eqb algorithm "rr"); [discriminate|reflexivity].
Qed.

(** Where the ready set is not empty, only Round-Robin can come back
    with nothing, and it does so with its queue emptied. *)
Lemma dispatch_nothing algorithm o o' :
  get_ready_processes o <> [] ->
  dispatch algorithm o = Some (None, o') ->
  algorithm = "rr" /\ o' = set_rr_queue [] o.
Proof.
  intros Hready. unfold dispatch, select_next_process_fifo,
    select_next_process_sjf, select_next_process_prio, select_next_process_rr.
  destruct (get_ready_processes o) as [|a l]; [congruence|].
  destruct (String.eqb algorithm "fifo"); [discriminate|].
  destruct (String.eqb algorithm "sjf"); [discriminate|].
  destruct (String.eqb algorithm "prio"); [discriminate|].
  destruct (String.eqb_spec algorithm "rr") as [->|]; [|discriminate].
  pose proof (rr_pop_spec (processes o) (rr_queue o)) as Hpop.
  destruct (rr_pop (processes o) (rr_queue o)) as [[r|] rest]; [discriminate|].
  destruct Hpop as (-> & _). now intros [= <-].
Qed.

(** C2, at a session where the code departs from it.  A is blocked while
    B runs to its end under Round-Robin, which drops A from the queue; A is
    then unblocked.  In the next run the ready set is [A], the selection
    finds only B, finished, in the queue and returns none, and the loop is
    left by [break]: the console gets the summary and the metrics of a run
    of 0 cycles, and A is still Ready with all its work to do. *)
Lemma no_selection_ends_as_completed :
  let s := perform_all
             [CmdCreate "A" 1 100 3; CmdCreate "B" 1 100 3; CmdBlock 1;
              CmdRun "rr"; CmdUnblock 1] (boot 2 steady_clock) in
  let s0 := print (MsgRunning "RR") s in
  get_ready_processes (sys s0) = [0%nat] /\
  dispatch "rr" (sys s0) = Some (None, set_rr_queue [] (sys s0)) /\
  (exists how,
     run_loop (S (workload (sys s0))) "rr" s0 0 = Some how /\
     how = Break (with_sys (set_rr_queue []) s0) 0 /\
     normal_completion how = true) /\
  stdout (run_simulation "rr" s) =
    stdout s ++
    [MsgRunning "RR"; MsgConcluded 0; MsgMetricsHeader;
     MsgMetricsPlain 1 "A" PRONTO;
     MsgMetricsTimed 2 "B" FINALIZADO (Some 1) (Some 0)] /\
  (exists a b, processes (sys (run_simulation "rr" s)) = [a; b] /\
     state a = PRONTO /\ cpu_remaining a = 1).
Proof.
  vm_compute. repeat split.
  - eexists. repeat split.
  - do 2 eexists. repeat split.
Qed.

(** C2 as the code has it: whenever the selection returns none though
    the ready set is not empty (which only Round-Robin does), the pass
    leaves the loop by [break] with the cycle count as it is, having
    printed nothing and changed nothing but the rotation queue, now empty;
    and what follows a [break] is what follows it in a completed run: the
    summary line with the cycle count, which is the next line on the
    console, and then [show_metrics]. *)
Theorem no_selection_breaks algorithm s cycle o' :
  get_ready_processes (sys s) <> [] ->
  dispatch algorithm (sys s) = Some (None, o') ->
  let s' := with_sys (set_rr_queue []) s in
  algorithm = "rr" /\
  loop_body algorithm s cycle = Leave (Break s' cycle) /\
  (forall fuel, run_loop (S fuel) algorithm s cycle = Some (Break s' cycle)) /\
  normal_completion (Break s' cycle) = true /\
  after_loop (Break s' cycle) = show_metrics (print (MsgConcluded cycle) s') /\
  stdout s' = stdout s /\
  stdout (print (MsgConcluded cycle) s') = stdout s ++ [MsgConcluded cycle] /\
  processes (sys s') = processes (sys s) /\
  processes (sys (after_loop (Break s' cycle))) = processes (sys s).
Proof.
  intros Hready Hd s'.
  destruct (dispatch_nothing _ _ _ Hready Hd) as (-> & ->).
  assert (Hbody : loop_body "rr" s cycle = Leave (Break s' cycle)).
  { unfold loop_body. rewrite Hd.
    destruct (get_ready_processes (sys s)); [congruence|reflexivity]. }
  split; [reflexivity|]. split; [exact Hbody|].
  split; [intros fuel; simpl; now rewrite Hbody|].
  split; [reflexivity|]. split; [reflexivity|].
  split; [reflexivity|]. split; [reflexivity|]. split; [reflexivity|].
  unfold after_loop.
  destruct (show_metrics_frame (print (MsgConcluded cycle) s')) as (H1 & _).
  now rewrite H1.
Qed.

Lemma no_selection_breaks_witness :
  let s := print (MsgRunning "RR")
             (perform_all
                [CmdCreate "A" 1 100 3; CmdCreate "B" 1 100 3; CmdBlock 1;
                 CmdRun "rr"; CmdUnblock 1] (boot 2 steady_clock)) in
  let s' := with_sys (set_rr_queue []) s in
  get_ready_processes (sys s) <> [] /\
  dispatch "rr" (sys s) = Some (None, set_rr_queue [] (sys s)) /\
  loop_body "rr" s 0 = Leave (Break s' 0) /\
  after_loop (Break s' 0) = show_metrics (print (MsgConcluded 0) s') /\
  stdout (print (MsgConcluded 0) s') = stdout s ++ [MsgConcluded 0].
Proof.
  intros s s'.
  assert (Hready : get_ready_processes (sys s) <> []) by (vm_compute; discriminate).
  assert (Hd : dispatch "rr" (sys s) = Some (None, set_rr_queue [] (sys s)))
    by (vm_compute; reflexivity).
  destruct (no_selection_breaks "rr" s 0 _ Hready Hd)
    as (_ & Hb & _ & _ & Ha & _ & Hout & _).
  split; [exact Hready|]. split; [exact Hd|]. split; [exact Hb|].
  split; [exact Ha|exact Hout].
Defined.

End Selection.

(** ** Claims about whole runs *)

Section Runs.

Implicit Types (s : Session) (o : OperatingSystem) (p : Process)
  (ps : list Process).

(** Where the loop is left, it is left with the table, the next
    identifier and the quantum as the pass found them. *)
Lemma loop_body_leave algorithm s cycle how :
  loop_body algorithm s cycle = Leave how ->
  exists s',
    (how = Break s' cycle \/ how = Return s') /\
    processes (sys s') = processes (sys s) /\
    next_pid (sys s') = next_pid (sys s) /\
    quantum (sys s') = quantum (sys s) /\
    clock s' = clock s /\ ticks s' = ticks s.
Proof.
  unfold loop_body.
  destruct (get_ready_processes (sys s)).
  { destruct (List.filter _ _); intros [= <-]; eexists;
      (split; [left; reflexivity|]); repeat split. }
  destruct (dispatch algorithm (sys s)) as [[[r|] o]|] eqn:D;
    [discriminate| |]; intros [= <-]; eexists.
  - split; [left; reflexivity|].
    destruct (dispatch_frame _ _ _ _ D) as (H1 & H2 & H3). simpl. auto.
  - split; [right; reflexivity|]. repeat split.
Qed.

Lemma after_loop_frame how s' :
  (exists cycle, how = Break s' cycle) \/ how = Return s' ->
  sys (after_loop how) = sys s' /\ clock (after_loop how) = clock s' /\
  ticks (after_loop how) = ticks s'.
Proof.
  intros [[cycle ->]| ->]; simpl; [|auto].
  destruct (show_metrics_frame (print (MsgConcluded cycle) s')) as (H1 & H2 & H3 & _).
  now rewrite H1, H2, H3.
Qed.

(** A property of the process table that every unit of CPU given to a
    Ready process keeps is kept by a whole run. *)
Lemma run_simulation_keeps (Q : list Process -> Prop) algorithm s :
  (forall ps (r : nat) p now,
     Q ps -> ps !! r = Some p -> state p = PRONTO -> Q (<[r := ran now p]> ps)) ->
  Q (processes (sys s)) ->
  Q (processes (sys (run_simulation algorithm s))).
Proof.
  intros Hstep HQ. unfold run_simulation.
  set (s0 := print (MsgRunning (upper (lower algorithm))) s).
  destruct (run_loop (S (workload (sys s0))) (lower algorithm) s0 0)
    as [how|] eqn:E; [|exact HQ].
  destruct (run_loop_invariant (fun s _ => Q (processes (sys s))) (lower algorithm))
    with (fuel := S (workload (sys s0))) (s := s0) (cycle := 0) (how := how)
    as (s1 & c1 & HQ1 & Hleave); [|exact HQ|exact E|].
  { intros s1 c1 s2 c2 HQ1 Hpass. apply loop_body_continue in Hpass.
    destruct Hpass as (r & p & Hp & Hst & -> & _). now apply Hstep. }
  apply loop_body_leave in Hleave.
  destruct Hleave as (s' & Hhow & Hps & _).
  destruct (after_loop_frame how s') as (Hsys & _).
  { destruct Hhow; eauto. }
  now rewrite Hsys, Hps.
Qed.

(** The run does leave the loop: the fuel it is given is enough. *)
Lemma run_simulation_leaves_loop algorithm s :
  let s0 := print (MsgRunning (upper (lower algorithm))) s in
  exists how,
    run_loop (S (workload (sys s0))) (lower algorithm) s0 0 = Some how /\
    run_simulation algorithm s = after_loop how.
Proof.
  intros s0.
  destruct (run_loop_enough (S (workload (sys s0))) (lower algorithm) s0 0)
    as [how Hhow]; [lia|].
  exists how. split; [exact Hhow|].
  unfold run_simulation. fold s0. now rewrite Hhow.
Qed.

(** C3, where the code departs from it.  With no Ready process (here: no
    process at all) the loop is left before the name is looked at, and the
    run under an unknown name ends as a completed run, without the notice
    of an invalid algorithm.  And a name is lowered first: [FIFO], which is
    none of the four names as written, runs the FIFO policy and executes a
    cycle. *)
Lemma unknown_name_not_always_rejected :
  (known_algorithm "xyz" = false /\
   stdout (run_simulation "xyz" (boot 2 steady_clock)) =
     [MsgRunning "XYZ"; MsgAllFinished; MsgConcluded 0; MsgMetricsHeader]) /\
  (known_algorithm "FIFO" = false /\
   let s := create_process "P1" 1 100 3 (boot 2 steady_clock) in
   stdout (run_simulation "FIFO" s) =
     stdout s ++
     [MsgRunning "FIFO"; MsgCycle 1 "P1" 1 0; MsgProcessFinished 1;
      MsgAllFinished; MsgConcluded 1; MsgMetricsHeader;
      MsgMetricsTimed 1 "P1" FINALIZADO (Some 1) (Some 0)] /\
   sys (run_simulation "FIFO" s) <> sys s).
Proof. vm_compute. repeat split. discriminate. Qed.

(** A run under an unknown name, in full: nothing changes, and the
    console gets the notice of an invalid algorithm if some process is
    Ready, and otherwise the notice of the empty ready set and the summary
    of 0 cycles. *)
Lemma unknown_algorithm_run algorithm s :
  known_algorithm (lower algorithm) = false ->
  let s0 := print (MsgRunning (upper (lower algorithm))) s in
  sys (run_simulation algorithm s) = sys s /\
  clock (run_simulation algorithm s) = clock s /\
  ticks (run_simulation algorithm s) = ticks s /\
  (get_ready_processes (sys s) <> [] ->
   run_simulation algorithm s = print (MsgInvalidAlgorithm (lower algorithm)) s0) /\
  (get_ready_processes (sys s) = [] ->
   exists notice,
     (notice = MsgAllFinished \/ notice = MsgNoneReady) /\
     run_simulation algorithm s =
       show_metrics (print (MsgConcluded 0) (print notice s0))).
Proof.
  intros Hunknown s0. unfold run_simulation. fold s0.
  cbn [run_loop]. unfold loop_body.
  rewrite (dispatch_unknown _ (sys s0) Hunknown).
  change (sys s0) with (sys s).
  destruct (get_ready_processes (sys s)) as [|a l].
  - assert (Hframe : forall notice,
              let s1 := show_metrics (print (MsgConcluded 0) (print notice s0)) in
              sys s1 = sys s /\ clock s1 = clock s /\ ticks s1 = ticks s).
    { intros notice s1. subst s1.
      destruct (show_metrics_frame (print (MsgConcluded 0) (print notice s0)))
        as (H1 & H2 & H3 & _).
      rewrite H1, H2, H3. repeat split. }
    destruct (List.filter _ (processes (sys s))) as [|b k]; cbn [after_loop].
    + destruct (Hframe MsgAllFinished) as (H1 & H2 & H3).
      split; [exact H1|]. split; [exact H2|]. split; [exact H3|].
      split; [congruence|]. intros _. exists MsgAllFinished.
      split; [now left|reflexivity].
    + destruct (Hframe MsgNoneReady) as (H1 & H2 & H3).
      split; [exact H1|]. split; [exact H2|]. split; [exact H3|].
      split; [congruence|]. intros _. exists MsgNoneReady.
      split; [now right|reflexivity].
  - cbn [after_loop]. repeat split; try reflexivity. congruence.
Qed.

(** C3 as the code has it: under a name whose lowercase form is none of
    the four, a run executes no cycle and changes nothing: the process
    table (states, remaining demands, timestamps), the rotation queue and
    the next identifier are as before, the clock is not read, no cycle is
    printed; and if some process is Ready the run prints the notice of an
    invalid algorithm right after its opening line and returns there,
    without summary. *)
Theorem unknown_algorithm_changes_nothing algorithm s :
  known_algorithm (lower algorithm) = false ->
  sys (run_simulation algorithm s) = sys s /\
  clock (run_simulation algorithm s) = clock s /\
  ticks (run_simulation algorithm s) = ticks s /\
  (forall cycle n i remaining,
     In (MsgCycle cycle n i remaining) (stdout (run_simulation algorithm s)) ->
     In (MsgCycle cycle n i remaining) (stdout s)) /\
  (get_ready_processes (sys s) <> [] ->
   stdout (run_simulation algorithm s) =
     stdout s ++ [MsgRunning (upper (lower algorithm));
                  MsgInvalidAlgorithm (lower algorithm)]).
Proof.
  intros Hunknown.
  destruct (unknown_algorithm_run algorithm s Hunknown)
    as (H1 & H2 & H3 & Hready & Hnone).
  split; [exact H1|]. split; [exact H2|]. split; [exact H3|]. split.
  - intros cycle n i remaining.
    destruct (get_ready_processes (sys s)) as [|a l] eqn:E.
    + destruct (Hnone eq_refl) as (notice & Hnotice & ->).
      destruct (show_metrics_frame
                  (print (MsgConcluded 0)
                     (print notice (print (MsgRunning (upper (lower algorithm))) s))))
        as (_ & _ & _ & ->).
      simpl. rewrite !in_app_iff. simpl. rewrite in_map_iff.
      intros [[[[H|[H|[]]]|[H|[]]]|[H|[]]]|[H|H]]; try discriminate; try assumption.
      * destruct Hnotice; congruence.
      * destruct H as (p & Hp & _). unfold metrics_line in Hp.
        destruct (truthy (turnaround_time p)); discriminate.
    + rewrite Hready by congruence. simpl. rewrite !in_app_iff. simpl.
      intros [[H|[H|[]]]|[H|[]]]; try discriminate; assumption.
  - intros Hne. rewrite (Hready Hne). simpl. now rewrite <- app_assoc.
Qed.

Lemma unknown_algorithm_changes_nothing_witness :
  let s := create_process "P1" 1 100 3 (boot 2 steady_clock) in
  known_algorithm (lower "LIFO") = false /\
  get_ready_processes (sys s) <> [] /\
  sys (run_simulation "LIFO" s) = sys s /\
  stdout (run_simulation "LIFO" s) =
    stdout s ++ [MsgRunning (upper (lower "LIFO"));
                 MsgInvalidAlgorithm (lower "LIFO")].
Proof.
  intros s.
  assert (Hunknown : known_algorithm (lower "LIFO") = false) by reflexivity.
  assert (Hne : get_ready_processes (sys s) <> []) by (vm_compute; discriminate).
  destruct (unknown_algorithm_changes_nothing "LIFO" s Hunknown)
    as (Hsys & _ & _ & _ & Hready).
  split; [exact Hunknown|]. split; [exact Hne|].
  split; [exact Hsys|exact (Hready Hne)].
Defined.

End Runs.

(** ** Invariants of the process table *)

Section Invariants.

Implicit Types (s : Session) (p : Process) (ps : list Process).

Lemma sound_init i n c m pr now : sound (Process_init i n c m pr now).
Proof.
  unfold sound, Process_init. simpl.
  split; [lia|]. split; [lia|]. split; [discriminate|].
  split; [discriminate|]. intros _. split; [lia|reflexivity].
Qed.

Lemma sound_ran now p : sound p -> state p = PRONTO -> sound (ran now p).
Proof.
  intros (H1 & H2 & H3 & H4 & H5) Hst. unfold ran. simpl.
  destruct H5 as [H5 H6]; [congruence|].
  destruct (cpu_remaining p - 1 <=? 0) eqn:E; unfold sound; simpl.
  - split; [lia|]. split; [lia|]. split; [discriminate|].
    split; [intros _; split; [lia|eauto]|]. intros Hne. now destruct Hne.
  - split; [lia|]. split; [lia|]. split; [discriminate|].
    split; [discriminate|]. intros _. split; [lia|exact H6].
Qed.

Lemma sound_blocked p :
  sound p -> state p <> FINALIZADO -> sound (set_state BLOQUEADO p).
Proof.
  intros (H1 & H2 & H3 & H4 & H5) Hst. unfold sound. simpl.
  split; [lia|]. split; [lia|]. split; [discriminate|].
  split; [discriminate|]. intros _. now apply H5.
Qed.

Lemma sound_unblocked p :
  sound p -> state p = BLOQUEADO -> sound (set_state PRONTO p).
Proof.
  intros (H1 & H2 & H3 & H4 & H5) Hst. unfold sound. simpl.
  split; [lia|]. split; [lia|]. split; [discriminate|].
  split; [discriminate|]. intros _. apply H5. congruence.
Qed.

Lemma sound_killed now p :
  sound p ->
  sound (set_finish_time (Some now) (set_cpu_remaining 0 (set_state FINALIZADO p))).
Proof.
  intros (H1 & H2 & H3 & H4 & H5). unfold sound. simpl.
  split; [lia|]. split; [lia|]. split; [discriminate|].
  split; [intros _; split; [reflexivity|eauto]|]. intros Hne. now destruct Hne.
Qed.

Lemma create_process_table n c m pr s :
  processes (sys (create_process n c m pr s)) =
  processes (sys s) ++ [Process_init (next_pid (sys s)) n c m pr (clock s (ticks s))].
Proof. reflexivity. Qed.

Lemma list_processes_frame s : sys (list_processes s) = sys s.
Proof.
  unfold list_processes.
  set (line := fun p => MsgTableRow (pid p) (name p) (cpu_remaining p)
                          (cpu_time p) (memory p) (priority p) (state p)).
  destruct (processes (sys s)); [reflexivity|].
  exact (proj1 (show_lines_frame line _ (print MsgTableRule (print MsgTableHeader s)))).
Qed.

(** Every command keeps every process of the table sound. *)
Lemma perform_sound c s :
  Forall sound (processes (sys s)) -> Forall sound (processes (sys (perform c s))).
Proof.
  intros H. destruct c as [n c m pr| |algorithm|w|w|w]; cbn [perform].
  - rewrite create_process_table. apply Forall_app_2; [exact H|].
    apply Forall_singleton, sound_init.
  - now rewrite list_processes_frame.
  - apply run_simulation_keeps; [|exact H].
    intros ps r p now Hps Hp Hst. apply Forall_insert; [exact Hps|].
    apply sound_ran; [|exact Hst]. eapply Forall_lookup_1; eassumption.
  - unfold block_process.
    destruct (get_process_by_pid w (sys s)) as [r|]; [|exact H].
    destruct (state_is FINALIZADO (processes (sys s)) r) eqn:E; [exact H|].
    simpl. apply Forall_alter; [exact H|].
    intros p Hp Hs. apply sound_blocked; [exact Hs|].
    rewrite (state_is_lookup _ _ _ _ Hp) in E. now apply state_eqb_neq.
  - unfold unblock_process.
    destruct (get_process_by_pid w (sys s)) as [r|]; [|exact H].
    destruct (state_is BLOQUEADO (processes (sys s)) r) eqn:E; [|exact H].
    simpl. apply Forall_alter; [exact H|].
    intros p Hp Hs. apply sound_unblocked; [exact Hs|].
    rewrite (state_is_lookup _ _ _ _ Hp) in E. now apply state_eqb_eq.
  - unfold kill_process.
    destruct (get_process_by_pid w (sys s)) as [r|]; [|exact H].
    simpl. rewrite !list_alter_alter_eq. apply Forall_alter; [exact H|].
    intros p Hp Hs. now apply sound_killed.
Qed.

Lemma reachable_sound s : reachable s -> Forall sound (processes (sys s)).
Proof.
  induction 1 as [q clk|c s _ IH|algorithm s _ IH|algorithm s cycle s' cycle' _ IH Hpass].
  - constructor.
  - now apply perform_sound.
  - exact IH.
  - apply loop_body_continue in Hpass.
    destruct Hpass as (r & p & Hp & Hst & -> & _).
    apply Forall_insert; [exact IH|].
    apply sound_ran; [|exact Hst]. eapply Forall_lookup_1; eassumption.
Qed.

Lemma reachable_perform_all cs s : reachable s -> reachable (perform_all cs s).
Proof.
  revert s. induction cs as [|c cs IH]; intros s H; [exact H|].
  simpl. apply IH. now constructor.
Qed.

(** C5: in every session that can be reached, by commands and by the
    passes of a run, every process of the table has a total demand of at
    least 1 and a remaining demand between 0 and the total; and a process
    created with a demand below 1 gets the demand 1. *)
Theorem demand_stays_bounded s :
  reachable s ->
  (forall p, In p (processes (sys s)) ->
     1 <= cpu_time p /\ 0 <= cpu_remaining p <= cpu_time p) /\
  (forall n c m pr, c < 1 ->
     exists p',
       processes (sys (create_process n c m pr s)) = processes (sys s) ++ [p'] /\
       cpu_time p' = 1 /\ cpu_remaining p' = 1).
Proof.
  intros Hreach. split.
  - intros p Hin. apply reachable_sound in Hreach.
    rewrite Forall_forall in Hreach. apply list_elem_of_In in Hin.
    destruct (Hreach p Hin) as (H1 & H2 & H3 & H4 & H5).
    split; [exact H1|]. split; [|exact H2].
    destruct (state p) eqn:E;
      try (destruct H5 as [H5 _]; [congruence|lia]).
    destruct H4 as [H4 _]; [reflexivity|lia].
  - intros n c m pr Hc. eexists. split; [apply create_process_table|].
    simpl. lia.
Qed.

Lemma demand_stays_bounded_witness :
  let s := perform_all
             [CmdCreate "A" 0 100 3; CmdCreate "B" 3 100 1; CmdBlock 1;
              CmdRun "sjf"; CmdKill 1] (boot 2 steady_clock) in
  reachable s /\
  forall p, In p (processes (sys s)) ->
    1 <= cpu_time p /\ 0 <= cpu_remaining p <= cpu_time p.
Proof.
  intros s.
  assert (Hreach : reachable s) by apply reachable_perform_all, reach_boot.
  split; [exact Hreach|].
  exact (proj1 (demand_stays_bounded s Hreach)).
Defined.

(** A property of the operating system that every pass of the loop keeps
    is kept by a whole run. *)
Lemma run_simulation_keeps_sys (Q : OperatingSystem -> Prop) algorithm s :
  (forall s cycle,
     Q (sys s) -> Q (sys (pass_session (loop_body (lower algorithm) s cycle)))) ->
  Q (sys s) ->
  Q (sys (run_simulation algorithm s)).
Proof.
  intros Hpass HQ. unfold run_simulation.
  set (s0 := print (MsgRunning (upper (lower algorithm))) s).
  destruct (run_loop (S (workload (sys s0))) (lower algorithm) s0 0)
    as [how|] eqn:E; [|exact HQ].
  destruct (run_loop_invariant (fun s _ => Q (sys s)) (lower algorithm))
    with (fuel := S (workload (sys s0))) (s := s0) (cycle := 0) (how := how)
    as (s1 & c1 & HQ1 & Hleave); [|exact HQ|exact E|].
  { intros s1 c1 s2 c2 HQ1 Hcont.
    specialize (Hpass s1 c1 HQ1). now rewrite Hcont in Hpass. }
  specialize (Hpass s1 c1 HQ1). rewrite Hleave in Hpass.
  destruct how as [s' c'|s']; simpl in *; [|exact Hpass].
  destruct (show_metrics_frame (print (MsgConcluded c') s')) as (H1 & _).
  now rewrite H1.
Qed.

Lemma loop_body_length algorithm s cycle :
  length (processes (sys (pass_session (loop_body algorithm s cycle)))) =
  length (processes (sys s)).
Proof.
  destruct (loop_body algorithm s cycle) as [s' c'|how] eqn:E.
  - apply loop_body_continue in E.
    destruct E as (r & p & _ & _ & Hps & _). simpl. rewrite Hps.
    apply length_insert.
  - apply loop_body_leave in E.
    destruct E as (s' & [-> | ->] & Hps & _); simpl; now rewrite Hps.
Qed.

Lemma loop_body_queue_ok algorithm s cycle :
  queue_ok (sys s) ->
  queue_ok (sys (pass_session (loop_body algorithm s cycle))).
Proof.
  intros [Hnd Hin]. unfold queue_ok.
  rewrite loop_body_length.
  destruct (loop_body_queue algorithm s cycle) as [Hincl Hnd'].
  split; [now apply Hnd'|].
  rewrite Forall_forall in *. intros x Hx. apply Hin.
  apply list_elem_of_In, Hincl, list_elem_of_In, Hx.
Qed.

Lemma perform_queue_ok c s : queue_ok (sys s) -> queue_ok (sys (perform c s)).
Proof.
  intros [Hnd Hin]. destruct c as [n c m pr| |algorithm|w|w|w]; cbn [perform].
  - unfold queue_ok. rewrite create_process_table, length_app.
    change (rr_queue (sys (create_process n c m pr s)))
      with (rr_queue (sys s) ++ [length (processes (sys s))]).
    rewrite Forall_forall in Hin. split.
    + apply NoDup_app. split; [exact Hnd|]. split; [|apply NoDup_singleton].
      intros x Hx ->%list_elem_of_singleton. specialize (Hin _ Hx). lia.
    + apply Forall_app. split.
      * apply Forall_forall. intros x Hx. specialize (Hin x Hx). lia.
      * apply Forall_singleton. simpl. lia.
  - now rewrite list_processes_frame.
  - apply (run_simulation_keeps_sys queue_ok); [|now split].
    intros s1 c1. apply loop_body_queue_ok.
  - unfold block_process.
    destruct (get_process_by_pid w (sys s)) as [r|]; [|now split].
    destruct (state_is FINALIZADO (processes (sys s)) r); [now split|].
    unfold queue_ok. simpl. now rewrite length_alter.
  - unfold unblock_process.
    destruct (get_process_by_pid w (sys s)) as [r|]; [|now split].
    destruct (state_is BLOQUEADO (processes (sys s)) r); [|now split].
    unfold queue_ok. simpl. now rewrite length_alter.
  - unfold kill_process.
    destruct (get_process_by_pid w (sys s)) as [r|]; [|now split].
    unfold queue_ok. simpl. now rewrite !length_alter.
Qed.

(** In every session that can be reached the rotation queue holds
    objects of the table, and none twice. *)
Lemma reachable_queue_ok s : reachable s -> queue_ok (sys s).
Proof.
  induction 1 as [q clk|c s _ IH|algorithm s _ IH|algorithm s cycle s' cycle' _ IH Hpass].
  - split; constructor.
  - now apply perform_queue_ok.
  - exact IH.
  - pose proof (loop_body_queue_ok algorithm s cycle IH) as H.
    now rewrite Hpass in H.
Qed.

(** A finished process is out of reach of a run, of [block_process] and
    of [unblock_process]: the object is left as it is. *)
Lemma finished_after_run algorithm s (i : nat) p :
  processes (sys s) !! i = Some p -> state p = FINALIZADO ->
  processes (sys (run_simulation algorithm s)) !! i = Some p.
Proof.
  intros Hp Hfin.
  apply (run_simulation_keeps (fun ps => ps !! i = Some p)); [|exact Hp].
  intros ps r p0 now Hi Hr Hst.
  rewrite list_lookup_insert_ne; [exact Hi|].
  intros ->. congruence.
Qed.

Lemma finished_after_block wanted s (i : nat) p :
  processes (sys s) !! i = Some p -> state p = FINALIZADO ->
  processes (sys (block_process wanted s)) !! i = Some p.
Proof.
  intros Hp Hfin. unfold block_process.
  destruct (get_process_by_pid wanted (sys s)) as [r|]; [|exact Hp].
  destruct (state_is FINALIZADO (processes (sys s)) r) eqn:E; [exact Hp|].
  simpl. rewrite list_lookup_alter_ne; [exact Hp|].
  intros ->. rewrite (state_is_lookup _ _ _ _ Hp), Hfin in E. discriminate.
Qed.

Lemma finished_after_unblock wanted s (i : nat) p :
  processes (sys s) !! i = Some p -> state p = FINALIZADO ->
  processes (sys (unblock_process wanted s)) !! i = Some p.
Proof.
  intros Hp Hfin. unfold unblock_process.
  destruct (get_process_by_pid wanted (sys s)) as [r|]; [|exact Hp].
  destruct (state_is BLOQUEADO (processes (sys s)) r) eqn:E; [|exact Hp].
  simpl. rewrite list_lookup_alter_ne; [exact Hp|].
  intros ->. rewrite (state_is_lookup _ _ _ _ Hp), Hfin in E. discriminate.
Qed.

(** C6: in every session that can be reached, a process has a completion
    timestamp exactly when it is Finished; and a process that is Finished
    is still there and still Finished after a run under any name, after
    [block_process] and after [unblock_process] on any identifier. *)
Theorem finished_iff_stamped_and_final s :
  reachable s ->
  (forall p, In p (processes (sys s)) ->
     finish_time p <> None <-> state p = FINALIZADO) /\
  (forall (i : nat) p,
     processes (sys s) !! i = Some p -> state p = FINALIZADO ->
     (forall algorithm, exists p',
        processes (sys (run_simulation algorithm s)) !! i = Some p' /\
        state p' = FINALIZADO) /\
     (forall wanted, exists p',
        processes (sys (block_process wanted s)) !! i = Some p' /\
        state p' = FINALIZADO) /\
     (forall wanted, exists p',
        processes (sys (unblock_process wanted s)) !! i = Some p' /\
        state p' = FINALIZADO)).
Proof.
  intros Hreach. split.
  - intros p Hin. apply reachable_sound in Hreach.
    rewrite Forall_forall in Hreach. apply list_elem_of_In in Hin.
    destruct (Hreach p Hin) as (_ & _ & _ & H4 & H5). split.
    + intros Hset. destruct (state p) eqn:E; try reflexivity;
        destruct H5 as [_ H5]; congruence.
    + intros Hfin. destruct (H4 Hfin) as [_ [t Ht]]. congruence.
  - intros i p Hp Hfin. split; [|split].
    + intros algorithm. exists p. split; [|exact Hfin].
      now apply finished_after_run.
    + intros wanted. exists p. split; [|exact Hfin].
      now apply finished_after_block.
    + intros wanted. exists p. split; [|exact Hfin].
      now apply finished_after_unblock.
Qed.

Lemma finished_iff_stamped_and_final_witness :
  let s := perform_all
             [CmdCreate "A" 1 100 3; CmdCreate "B" 2 100 1; CmdBlock 2;
              CmdRun "prio"] (boot 2 steady_clock) in
  reachable s /\
  (forall p, In p (processes (sys s)) ->
     finish_time p <> None <-> state p = FINALIZADO) /\
  (exists p, processes (sys s) !! 0%nat = Some p /\ state p = FINALIZADO /\
     exists p',
       processes (sys (block_process 1 s)) !! 0%nat = Some p' /\
       state p' = FINALIZADO).
Proof.
  intros s.
  assert (Hreach : reachable s) by apply reachable_perform_all, reach_boot.
  destruct (finished_iff_stamped_and_final s Hreach) as (Hiff & Hfinal).
  split; [exact Hreach|]. split; [exact Hiff|].
  eexists. split; [vm_compute; reflexivity|]. split; [reflexivity|].
  eapply Hfinal; [vm_compute|]; reflexivity.
Defined.

End Invariants.

(** ** The quantum *)

Section Quantum.

Implicit Types (s : Session) (o : OperatingSystem) (q : Z).

Lemma print_requantum q l s : print l (requantum q s) = requantum q (print l s).
Proof. reflexivity. Qed.

Lemma show_lines_requantum q (line : Process -> Line) ps s :
  fold_left (fun s p => print (line p) s) ps (requantum q s) =
  requantum q (fold_left (fun s p => print (line p) s) ps s).
Proof.
  revert s. induction ps as [|p ps IH]; intros s; simpl; [reflexivity|].
  now rewrite print_requantum, IH.
Qed.

Lemma show_metrics_requantum q s :
  show_metrics (requantum q s) = requantum q (show_metrics s).
Proof.
  unfold show_metrics.
  exact (show_lines_requantum q metrics_line (processes (sys s))
           (print MsgMetricsHeader s)).
Qed.

Lemma list_processes_requantum q s :
  list_processes (requantum q s) = requantum q (list_processes s).
Proof.
  unfold list_processes.
  change (processes (sys (requantum q s))) with (processes (sys s)).
  destruct (processes (sys s)); [reflexivity|].
  exact (show_lines_requantum q
           (fun p => MsgTableRow (pid p) (name p) (cpu_remaining p)
                       (cpu_time p) (memory p) (priority p) (state p))
           (processes (sys s))
           (print MsgTableRule (print MsgTableHeader s))).
Qed.

Lemma dispatch_requantum q algorithm o :
  dispatch algorithm (set_quantum q o) =
  match dispatch algorithm o with
  | Some (found, o') => Some (found, set_quantum q o')
  | None => None
  end.
Proof.
  unfold dispatch, select_next_process_rr.
  change (get_ready_processes (set_quantum q o)) with (get_ready_processes o).
  destruct (String.eqb algorithm "fifo"); [reflexivity|].
  destruct (String.eqb algorithm "sjf"); [reflexivity|].
  destruct (String.eqb algorithm "prio"); [reflexivity|].
  destruct (String.eqb algorithm "rr"); [|reflexivity].
  cbn [processes rr_queue set_quantum].
  destruct (rr_pop (processes o) (rr_queue o)) as [[c|] rest]; reflexivity.
Qed.

Lemma execute_requantum q r cycle s :
  execute r cycle (requantum q s) = requantum q (execute r cycle s).
Proof.
  unfold execute.
  change (processes (sys (mutate r (fun p => set_cpu_remaining (cpu_remaining p - 1) p)
            (mutate r (set_state EXECUTANDO) (requantum q s)))))
    with (processes (sys (mutate r (fun p => set_cpu_remaining (cpu_remaining p - 1) p)
            (mutate r (set_state EXECUTANDO) s)))).
  destruct (processes (sys (mutate r (fun p => set_cpu_remaining (cpu_remaining p - 1) p)
              (mutate r (set_state EXECUTANDO) s))) !! r) as [p|]; [|reflexivity].
  destruct (cpu_remaining p <=? 0); reflexivity.
Qed.

Lemma loop_body_requantum q algorithm s cycle :
  loop_body algorithm (requantum q s) cycle =
  requantum_pass q (loop_body algorithm s cycle).
Proof.
  unfold loop_body.
  change (get_ready_processes (sys (requantum q s)))
    with (get_ready_processes (sys s)).
  change (processes (sys (requantum q s))) with (processes (sys s)).
  change (sys (requantum q s)) with (set_quantum q (sys s)).
  rewrite dispatch_requantum.
  destruct (get_ready_processes (sys s)).
  { destruct (List.filter _ _); reflexivity. }
  destruct (dispatch algorithm (sys s)) as [[[r|] o]|]; try reflexivity.
  cbn [requantum_pass]. f_equal.
  apply (execute_requantum q r (cycle + 1) (with_sys (fun _ => o) s)).
Qed.

Lemma run_loop_requantum q fuel algorithm s cycle :
  run_loop fuel algorithm (requantum q s) cycle =
  option_map (requantum_exit q) (run_loop fuel algorithm s cycle).
Proof.
  revert s cycle. induction fuel as [|fuel IH]; intros s cycle; [reflexivity|].
  simpl. rewrite loop_body_requantum.
  destruct (loop_body algorithm s cycle) as [s' cycle'|how]; simpl;
    [apply IH|reflexivity].
Qed.

Lemma after_loop_requantum q how :
  after_loop (requantum_exit q how) = requantum q (after_loop how).
Proof.
  destruct how as [s cycle|s]; simpl; [|reflexivity].
  now rewrite print_requantum, show_metrics_requantum.
Qed.

Lemma run_simulation_requantum q algorithm s :
  run_simulation algorithm (requantum q s) = requantum q (run_simulation algorithm s).
Proof.
  unfold run_simulation. rewrite print_requantum.
  change (workload (sys (requantum q (print (MsgRunning (upper (lower algorithm))) s))))
    with (workload (sys (print (MsgRunning (upper (lower algorithm))) s))).
  rewrite run_loop_requantum.
  destruct (run_loop _ _ _ _) as [how|]; simpl; [|reflexivity].
  apply after_loop_requantum.
Qed.

(** No command reads the quantum: it is carried along. *)
Lemma perform_requantum q c s :
  perform c (requantum q s) = requantum q (perform c s).
Proof.
  destruct c as [n c m pr| |algorithm|w|w|w]; cbn [perform].
  - reflexivity.
  - apply list_processes_requantum.
  - apply run_simulation_requantum.
  - unfold block_process.
    change (get_process_by_pid w (sys (requantum q s)))
      with (get_process_by_pid w (sys s)).
    destruct (get_process_by_pid w (sys s)) as [r|]; [|reflexivity].
    change (processes (sys (requantum q s))) with (processes (sys s)).
    destruct (state_is FINALIZADO (processes (sys s)) r); reflexivity.
  - unfold unblock_process.
    change (get_process_by_pid w (sys (requantum q s)))
      with (get_process_by_pid w (sys s)).
    destruct (get_process_by_pid w (sys s)) as [r|]; [|reflexivity].
    change (processes (sys (requantum q s))) with (processes (sys s)).
    destruct (state_is BLOQUEADO (processes (sys s)) r); reflexivity.
  - unfold kill_process.
    change (get_process_by_pid w (sys (requantum q s)))
      with (get_process_by_pid w (sys s)).
    destruct (get_process_by_pid w (sys s)) as [r|]; reflexivity.
Qed.

Lemma perform_all_requantum q cs s :
  perform_all cs (requantum q s) = requantum q (perform_all cs s).
Proof.
  revert s. induction cs as [|c cs IH]; intros s; [reflexivity|].
  simpl. now rewrite perform_requantum, IH.
Qed.

(** C10: two sessions booted with different quanta and given the same
    commands differ in the stored quantum only: same console (creation
    notices, traces of cycles, halt notices, summaries, metrics), same
    process table, same rotation queue, same next identifier, same number
    of clock readings. *)
Theorem quantum_is_never_read :
  forall q1 q2 clk cs,
    let s1 := perform_all cs (boot q1 clk) in
    let s2 := perform_all cs (boot q2 clk) in
    s2 = requantum q2 s1 /\
    stdout s1 = stdout s2 /\
    processes (sys s1) = processes (sys s2) /\
    rr_queue (sys s1) = rr_queue (sys s2) /\
    next_pid (sys s1) = next_pid (sys s2) /\
    ticks s1 = ticks s2 /\
    (forall algorithm fuel,
       run_loop fuel algorithm s2 0 =
       option_map (requantum_exit q2) (run_loop fuel algorithm s1 0)).
Proof.
  intros q1 q2 clk cs s1 s2.
  assert (H : s2 = requantum q2 s1).
  { subst s1 s2. rewrite <- perform_all_requantum. reflexivity. }
  split; [exact H|]. rewrite H.
  repeat split. intros algorithm fuel. apply run_loop_requantum.
Qed.

End Quantum.

(** ** Identifiers *)

Section Identifiers.

Implicit Types (s : Session) (o : OperatingSystem) (p : Process)
  (ps : list Process).

Lemma numbered_mutate (f : Process -> Process) (r : nat) o :
  (forall p, pid (f p) = pid p) -> numbered o -> numbered (mutate_os r f o).
Proof.
  intros Hf [Hn Hp]. split; simpl.
  - now rewrite length_alter.
  - intros i p Hi. destruct (decide (r = i)) as [->|Hne].
    + rewrite list_lookup_alter_eq in Hi.
      destruct (processes o !! i) as [p0|] eqn:E; [|discriminate].
      injection Hi as <-. rewrite Hf. now apply Hp.
    + rewrite list_lookup_alter_ne in Hi by exact Hne. now apply Hp.
Qed.

Lemma loop_body_numbered algorithm s cycle :
  numbered (sys s) ->
  numbered (sys (pass_session (loop_body algorithm s cycle))).
Proof.
  intros [Hn Hp].
  destruct (loop_body algorithm s cycle) as [s' c'|how] eqn:E.
  - apply loop_body_continue in E.
    destruct E as (r & p & Hr & _ & Hps & Hnext & _). simpl.
    split.
    + rewrite Hnext, Hps, length_insert. exact Hn.
    + intros i q. rewrite Hps. intros Hi.
      destruct (decide (r = i)) as [->|Hne].
      * rewrite list_lookup_insert_eq in Hi by (eapply lookup_lt_Some, Hr).
        injection Hi as <-. unfold ran. simpl.
        destruct (cpu_remaining p - 1 <=? 0); simpl; now apply Hp.
      * rewrite list_lookup_insert_ne in Hi by exact Hne. now apply Hp.
  - apply loop_body_leave in E.
    destruct E as (s' & [-> | ->] & Hps & Hnext & _); simpl;
      (split; [now rewrite Hnext, Hps|now rewrite Hps]).
Qed.

Lemma perform_numbered c s : numbered (sys s) -> numbered (sys (perform c s)).
Proof.
  intros H. destruct c as [n c m pr| |algorithm|w|w|w]; cbn [perform].
  - destruct H as [Hn Hp]. split.
    + rewrite create_process_table, length_app.
      change (next_pid (sys (create_process n c m pr s)))
        with (next_pid (sys s) + 1).
      simpl. lia.
    + intros i p. rewrite create_process_table. intros Hi.
      apply lookup_app_Some in Hi. destruct Hi as [Hi|[Hge Hi]].
      * now apply Hp.
      * destruct (i - length (processes (sys s)))%nat eqn:E; [|discriminate].
        injection Hi as <-. simpl. rewrite Hn. lia.
  - now rewrite list_processes_frame.
  - apply (run_simulation_keeps_sys numbered); [|exact H].
    intros s1 c1. apply loop_body_numbered.
  - unfold block_process.
    destruct (get_process_by_pid w (sys s)) as [r|]; [|exact H].
    destruct (state_is FINALIZADO (processes (sys s)) r); [exact H|].
    now apply (numbered_mutate (set_state BLOQUEADO) r).
  - unfold unblock_process.
    destruct (get_process_by_pid w (sys s)) as [r|]; [|exact H].
    destruct (state_is BLOQUEADO (processes (sys s)) r); [|exact H].
    now apply (numbered_mutate (set_state PRONTO) r).
  - unfold kill_process.
    destruct (get_process_by_pid w (sys s)) as [r|]; [|exact H].
    apply (numbered_mutate (set_finish_time _) r); [reflexivity|].
    apply (numbered_mutate (set_cpu_remaining 0) r); [reflexivity|].
    now apply (numbered_mutate (set_state FINALIZADO) r).
Qed.

Lemma reachable_numbered s : reachable s -> numbered (sys s).
Proof.
  induction 1 as [q clk|c s _ IH|algorithm s _ IH|algorithm s cycle s' cycle' _ IH Hpass].
  - split; [reflexivity|]. intros i p Hi. discriminate.
  - now apply perform_numbered.
  - exact IH.
  - pose proof (loop_body_numbered algorithm s cycle IH) as H.
    now rewrite Hpass in H.
Qed.

(** The search by identifier in a table numbered from [k + 1]. *)
Lemma find_pid_numbered wanted (k : nat) ps :
  (forall (i : nat) p, ps !! i = Some p -> pid p = Z.of_nat (k + i) + 1) ->
  find_pid wanted k ps =
  if (Z.of_nat k + 1 <=? wanted) && (wanted <=? Z.of_nat (k + length ps))
  then Some (Z.to_nat (wanted - 1)) else None.
Proof.
  revert k. induction ps as [|p ps IH]; intros k Hp; simpl.
  - destruct (Z.leb_spec (Z.of_nat k + 1) wanted);
      destruct (Z.leb_spec wanted (Z.of_nat (k + 0))); simpl;
      try reflexivity. lia.
  - pose proof (Hp 0%nat p eq_refl) as H0.
    rewrite Nat.add_0_r in H0.
    destruct (Z.eqb_spec (pid p) wanted) as [E|E].
    + assert (wanted = Z.of_nat k + 1) as -> by lia.
      replace (Z.to_nat (Z.of_nat k + 1 - 1)) with k by lia.
      destruct (Z.leb_spec (Z.of_nat k + 1) (Z.of_nat k + 1)); [|lia].
      destruct (Z.leb_spec (Z.of_nat k + 1) (Z.of_nat (k + S (length ps))));
        [reflexivity|lia].
    + rewrite IH.
      * destruct (Z.leb_spec (Z.of_nat (S k) + 1) wanted);
          destruct (Z.leb_spec (Z.of_nat k + 1) wanted);
          destruct (Z.leb_spec wanted (Z.of_nat (S k + length ps)));
          destruct (Z.leb_spec wanted (Z.of_nat (k + S (length ps))));
          simpl; try reflexivity; lia.
      * intros i q Hi. rewrite (Hp (S i) q Hi). f_equal. lia.
Qed.

(** X1: in every session that can be reached the identifiers are the
    positions in the table counted from 1, so they are unique and never
    reused, the next identifier is one past the last, and the search by
    identifier finds position [wanted - 1] for [wanted] between 1 and the
    number of processes, and nothing otherwise. *)
Theorem identifiers_are_positions s :
  reachable s ->
  next_pid (sys s) = Z.of_nat (length (processes (sys s))) + 1 /\
  (forall (i : nat) p, processes (sys s) !! i = Some p -> pid p = Z.of_nat i + 1) /\
  (forall (i j : nat) p q,
     processes (sys s) !! i = Some p -> processes (sys s) !! j = Some q ->
     pid p = pid q -> i = j) /\
  (forall wanted,
     get_process_by_pid wanted (sys s) =
     if (1 <=? wanted) && (wanted <=? Z.of_nat (length (processes (sys s))))
     then Some (Z.to_nat (wanted - 1)) else None).
Proof.
  intros Hreach. destruct (reachable_numbered s Hreach) as [Hn Hp].
  split; [exact Hn|]. split; [exact Hp|]. split.
  - intros i j p q Hi Hj Heq.
    rewrite (Hp i p Hi), (Hp j q Hj) in Heq. lia.
  - intros wanted. unfold get_process_by_pid.
    rewrite (find_pid_numbered wanted 0 (processes (sys s))); [reflexivity|].
    intros i p Hi. now apply Hp.
Qed.

Lemma identifiers_are_positions_witness :
  let s := perform_all
             [CmdCreate "A" 1 100 3; CmdCreate "B" 2 100 1; CmdRun "sjf";
              CmdCreate "C" 4 50 2] (boot 2 steady_clock) in
  reachable s /\
  next_pid (sys s) = 4 /\
  get_process_by_pid 3 (sys s) = Some 2%nat /\
  get_process_by_pid 4 (sys s) = None.
Proof.
  intros s.
  assert (Hreach : reachable s) by apply reachable_perform_all, reach_boot.
  destruct (identifiers_are_positions s Hreach) as (Hn & _ & _ & Hfind).
  split; [exact Hreach|]. split; [exact Hn|].
  split; [exact (Hfind 3)|exact (Hfind 4)].
Defined.

End Identifiers.

(** ** Creation and state control *)

Section Control.

Implicit Types (s : Session) (o : OperatingSystem) (p : Process)
  (ps : list Process).

Lemma reachable_find s wanted :
  reachable s ->
  get_process_by_pid wanted (sys s) =
  if (1 <=? wanted) && (wanted <=? Z.of_nat (length (processes (sys s))))
  then Some (Z.to_nat (wanted - 1)) else None.
Proof.
  intros Hreach. destruct (reachable_numbered s Hreach) as [Hn Hp].
  unfold get_process_by_pid.
  rewrite (find_pid_numbered wanted 0 (processes (sys s))); [reflexivity|].
  intros i p Hi. now apply Hp.
Qed.

(** The search looks at identifiers only. *)
Lemma find_pid_alter (f : Process -> Process) wanted (k r : nat) ps :
  (forall p, pid (f p) = pid p) ->
  find_pid wanted k (alter f r ps) = find_pid wanted k ps.
Proof.
  intros Hf. revert k r. induction ps as [|p ps IH]; intros k [|r]; simpl;
    try reflexivity.
  - now rewrite Hf.
  - change (list_alter f r ps) with (alter f r ps). now rewrite IH.
Qed.

(** X2: an identifier that was never given out (below 1, or above the
    number of processes created) is reported as not found by
    [block_process], [unblock_process] and [kill_process] alike, and the
    session is otherwise left as it is: no process changes and the clock is
    not read. *)
Theorem unknown_identifier_is_reported s wanted :
  reachable s ->
  wanted < 1 \/ Z.of_nat (length (processes (sys s))) < wanted ->
  block_process wanted s = print (MsgNotFound wanted) s /\
  unblock_process wanted s = print (MsgNotFound wanted) s /\
  kill_process wanted s = print (MsgNotFound wanted) s.
Proof.
  intros Hreach Hout.
  assert (Hnone : get_process_by_pid wanted (sys s) = None).
  { rewrite (reachable_find s wanted Hreach).
    destruct (Z.leb_spec 1 wanted);
      destruct (Z.leb_spec wanted (Z.of_nat (length (processes (sys s)))));
      simpl; try reflexivity. lia. }
  unfold block_process, unblock_process, kill_process.
  now rewrite Hnone.
Qed.

Lemma unknown_identifier_is_reported_witness :
  let s := perform_all [CmdCreate "A" 1 100 3; CmdCreate "B" 2 100 1]
             (boot 2 steady_clock) in
  reachable s /\
  (0 < 1 \/ Z.of_nat (length (processes (sys s))) < 0) /\
  kill_process 0 s = print (MsgNotFound 0) s /\
  block_process 0 s = print (MsgNotFound 0) s.
Proof.
  intros s.
  assert (Hreach : reachable s) by apply reachable_perform_all, reach_boot.
  assert (Hout : 0 < 1 \/ Z.of_nat (length (processes (sys s))) < 0)
    by (left; lia).
  destruct (unknown_identifier_is_reported s 0 Hreach Hout) as (Hb & _ & Hk).
  split; [exact Hreach|]. split; [exact Hout|]. split; [exact Hk|exact Hb].
Defined.

(** X3: a process just created is the last of the table and of the
    rotation queue, is Ready with its whole demand (at least 1) to run,
    carries the identifier that was next, and is what the search by that
    identifier finds; the search by any other identifier finds what it
    found before. *)
Theorem created_process_is_found n c m pr s :
  reachable s ->
  let s' := create_process n c m pr s in
  let here := length (processes (sys s)) in
  processes (sys s') =
    processes (sys s) ++
    [Process_init (next_pid (sys s)) n c m pr (clock s (ticks s))] /\
  rr_queue (sys s') = rr_queue (sys s) ++ [here] /\
  next_pid (sys s') = next_pid (sys s) + 1 /\
  get_process_by_pid (next_pid (sys s)) (sys s') = Some here /\
  In here (get_ready_processes (sys s')) /\
  (forall wanted,
     wanted <> next_pid (sys s) ->
     get_process_by_pid wanted (sys s') = get_process_by_pid wanted (sys s)).
Proof.
  intros Hreach s' here.
  assert (Hreach' : reachable s') by apply (reach_perform (CmdCreate n c m pr)), Hreach.
  destruct (reachable_numbered s Hreach) as [Hn _].
  assert (Hlen : length (processes (sys s')) = S here).
  { subst s'. rewrite create_process_table, length_app. simpl. lia. }
  split; [reflexivity|]. split; [reflexivity|]. split; [reflexivity|].
  split; [|split].
  - rewrite (reachable_find s' _ Hreach'), Hlen, Hn. fold here.
    destruct (Z.leb_spec 1 (Z.of_nat here + 1)); [|lia].
    destruct (Z.leb_spec (Z.of_nat here + 1) (Z.of_nat (S here))); [|lia].
    simpl. f_equal. lia.
  - unfold get_ready_processes. apply filter_In. split.
    + apply in_seq. rewrite Hlen. lia.
    + apply state_is_true.
      exists (Process_init (next_pid (sys s)) n c m pr (clock s (ticks s))).
      split; [|reflexivity].
      subst s'. rewrite create_process_table.
      rewrite lookup_app_r by reflexivity.
      fold here. now rewrite Nat.sub_diag.
  - intros wanted Hne.
    rewrite (reachable_find s' _ Hreach'), (reachable_find s _ Hreach), Hlen.
    rewrite Hn in Hne. fold here in Hne |- *.
    destruct (Z.leb_spec 1 wanted); simpl; [|reflexivity].
    destruct (Z.leb_spec wanted (Z.of_nat (S here)));
      destruct (Z.leb_spec wanted (Z.of_nat here)); try reflexivity; lia.
Qed.

Lemma created_process_is_found_witness :
  let s := perform_all [CmdCreate "A" 1 100 3; CmdKill 1] (boot 2 steady_clock) in
  let s' := create_process "B" 0 50 2 s in
  reachable s /\
  get_process_by_pid 2 (sys s') = Some 1%nat /\
  In 1%nat (get_ready_processes (sys s')).
Proof.
  intros s s'.
  assert (Hreach : reachable s) by apply reachable_perform_all, reach_boot.
  destruct (created_process_is_found "B" 0 50 2 s Hreach)
    as (_ & _ & _ & Hfind & Hready & _).
  split; [exact Hreach|]. split; [exact Hfind|exact Hready].
Defined.

(** X4: [kill_process] on a process it finds, whatever its state: that
    process is Finished, with nothing left to run and the current clock
    reading as completion timestamp; every other process, the rotation
    queue and the next identifier are as before; the clock has been read
    once and the console has one more line, the notice of the kill. *)
Theorem kill_finishes_one_process wanted s (r : nat) p :
  get_process_by_pid wanted (sys s) = Some r ->
  processes (sys s) !! r = Some p ->
  let s' := kill_process wanted s in
  processes (sys s') !! r =
    Some (set_finish_time (Some (clock s (ticks s)))
            (set_cpu_remaining 0 (set_state FINALIZADO p))) /\
  (forall i : nat, i <> r -> processes (sys s') !! i = processes (sys s) !! i) /\
  length (processes (sys s')) = length (processes (sys s)) /\
  rr_queue (sys s') = rr_queue (sys s) /\
  next_pid (sys s') = next_pid (sys s) /\
  ticks s' = S (ticks s) /\
  stdout s' = stdout s ++ [MsgKilled wanted] /\
  ~ In r (get_ready_processes (sys s')).
Proof.
  intros Hr Hp s'. subst s'. unfold kill_process. rewrite Hr.
  unfold time_time, print, mutate, with_sys, mutate_os. cbn.
  rewrite !list_alter_alter_eq.
  split; [now rewrite list_lookup_alter_eq, Hp|].
  split; [intros i Hne; now apply list_lookup_alter_ne|].
  split; [apply length_alter|].
  do 4 (split; [reflexivity|]).
  unfold get_ready_processes. rewrite filter_In. intros [_ Hready].
  apply state_is_true in Hready. destruct Hready as (q & Hq & Hst).
  simpl in Hq. rewrite list_lookup_alter_eq, Hp in Hq.
  injection Hq as <-. discriminate.
Qed.

Lemma kill_finishes_one_process_witness :
  let s := perform_all [CmdCreate "A" 3 100 3; CmdCreate "B" 2 100 1; CmdBlock 2]
             (boot 2 steady_clock) in
  exists p,
    get_process_by_pid 2 (sys s) = Some 1%nat /\
    processes (sys s) !! 1%nat = Some p /\
    processes (sys (kill_process 2 s)) !! 1%nat =
      Some (set_finish_time (Some (clock s (ticks s)))
              (set_cpu_remaining 0 (set_state FINALIZADO p))) /\
    stdout (kill_process 2 s) = stdout s ++ [MsgKilled 2].
Proof.
  intros s. eexists.
  assert (Hr : get_process_by_pid 2 (sys s) = Some 1%nat) by (vm_compute; reflexivity).
  split; [exact Hr|]. split; [vm_compute; reflexivity|].
  destruct (kill_finishes_one_process 2 s 1 _ Hr eq_refl)
    as (H1 & _ & _ & _ & _ & _ & H2 & _).
  split; [exact H1|exact H2].
Defined.

(** X5: blocking a Ready process and unblocking it again gives back the
    operating system as it was (table, rotation queue, next identifier);
    only the two notices have been added to the console. *)
Theorem unblock_undoes_block wanted s (r : nat) p :
  get_process_by_pid wanted (sys s) = Some r ->
  processes (sys s) !! r = Some p ->
  state p = PRONTO ->
  sys (unblock_process wanted (block_process wanted s)) = sys s /\
  ticks (unblock_process wanted (block_process wanted s)) = ticks s /\
  stdout (unblock_process wanted (block_process wanted s)) =
    stdout s ++ [MsgBlocked wanted; MsgUnblocked wanted].
Proof.
  intros Hr Hp Hst.
  assert (Hblock : block_process wanted s =
            print (MsgBlocked wanted) (mutate r (set_state BLOQUEADO) s)).
  { unfold block_process. rewrite Hr, (state_is_lookup _ _ _ _ Hp), Hst.
    reflexivity. }
  rewrite Hblock. unfold unblock_process.
  assert (Hr' : get_process_by_pid wanted
                  (sys (print (MsgBlocked wanted) (mutate r (set_state BLOQUEADO) s)))
                = Some r).
  { unfold get_process_by_pid in *. simpl.
    rewrite find_pid_alter; [exact Hr|reflexivity]. }
  rewrite Hr'.
  assert (Hp' : processes (sys (print (MsgBlocked wanted)
                  (mutate r (set_state BLOQUEADO) s))) !! r
                = Some (set_state BLOQUEADO p)).
  { simpl. now rewrite list_lookup_alter_eq, Hp. }
  rewrite (state_is_lookup _ _ _ _ Hp'). simpl.
  split; [|split; [reflexivity|now rewrite <- app_assoc]].
  destruct s as [[ps np q rq] clk tk out]. simpl in *.
  unfold mutate_os. simpl. f_equal.
  rewrite list_alter_alter_eq.
  rewrite (alter_as_insert _ _ _ _ Hp). simpl.
  apply list_insert_id. rewrite Hp. f_equal.
  destruct p; simpl in *. now subst.
Qed.

Lemma unblock_undoes_block_witness :
  let s := perform_all [CmdCreate "A" 3 100 3; CmdCreate "B" 2 100 1]
             (boot 2 steady_clock) in
  get_process_by_pid 1 (sys s) = Some 0%nat /\
  sys (unblock_process 1 (block_process 1 s)) = sys s.
Proof.
  intros s.
  assert (Hr : get_process_by_pid 1 (sys s) = Some 0%nat) by (vm_compute; reflexivity).
  split; [exact Hr|].
  eapply (unblock_undoes_block 1 s 0 _ Hr); [vm_compute|]; reflexivity.
Defined.

End Control.

(** ** The three memoryless policies *)

Section Policies.

Implicit Types (o : OperatingSystem) (p : Process) (ps : list Process).

Lemma filter_seq_bounds (f : nat -> bool) (a n x : nat) :
  In x (List.filter f (seq a n)) -> (a <= x < a + n)%nat /\ f x = true.
Proof. rewrite filter_In, in_seq. tauto. Qed.

(** The first element a filter keeps of a run of numbers. *)
Lemma filter_seq_head (f : nat -> bool) (a n : nat) :
  match List.filter f (seq a n) with
  | [] => forall j : nat, (a <= j < a + n)%nat -> f j = false
  | r :: _ => f r = true /\ forall j : nat, (a <= j < r)%nat -> f j = false
  end.
Proof.
  revert a. induction n as [|n IH]; intros a; simpl; [intros j Hj; lia|].
  destruct (f a) eqn:E.
  - split; [exact E|]. intros j Hj. lia.
  - specialize (IH (S a)).
    destruct (List.filter f (seq (S a) n)) as [|r l].
    + intros j Hj. destruct (decide (j = a)) as [->|]; [exact E|].
      apply IH. lia.
    + destruct IH as [Hr Hbefore]. split; [exact Hr|].
      intros j Hj. destruct (decide (j = a)) as [->|]; [exact E|].
      apply Hbefore. lia.
Qed.

(** A filtered run of numbers is in increasing order. *)
Lemma filter_seq_split (f : nat -> bool) (a n : nat) pre (m : nat) post :
  List.filter f (seq a n) = pre ++ m :: post ->
  (forall x, In x pre -> (x < m)%nat) /\ (forall x, In x post -> (m < x)%nat).
Proof.
  revert a pre. induction n as [|n IH]; intros a pre; simpl.
  { destruct pre; discriminate. }
  destruct (f a) eqn:E.
  - destruct pre as [|b pre]; simpl.
    + intros [= <- <-]. split; [intros x []|].
      intros x Hx. apply filter_seq_bounds in Hx. lia.
    + intros [= <- Hrest]. destruct (IH _ _ Hrest) as [Hpre Hpost].
      split; [|exact Hpost].
      intros x [<-|Hx]; [|now apply Hpre].
      assert (Hm : In m (List.filter f (seq (S a) n)))
        by (rewrite Hrest; apply in_app_iff; right; now left).
      apply filter_seq_bounds in Hm. lia.
  - apply IH.
Qed.

(** Python's [min] with a key: the first of the elements of least key. *)
Lemma min_by_first (key : nat -> Z) (best : nat) xs :
  exists pre post,
    best :: xs = pre ++ min_by key best xs :: post /\
    (forall x, In x pre -> key (min_by key best xs) < key x) /\
    (forall x, In x post -> key (min_by key best xs) <= key x).
Proof.
  revert best. induction xs as [|x xs IH]; intros best; simpl.
  { exists [], []. split; [reflexivity|]. split; intros x []. }
  destruct (Z.ltb_spec (key x) (key best)) as [Hlt|Hge].
  - destruct (IH x) as (pre & post & Heq & Hpre & Hpost).
    exists (best :: pre), post. split; [simpl; now rewrite Heq|].
    split; [|exact Hpost].
    intros y [<-|Hy]; [|now apply Hpre].
    assert (Hx : In x (pre ++ min_by key x xs :: post))
      by (rewrite <- Heq; now left).
    apply in_app_iff in Hx. destruct Hx as [Hx|[Hx|Hx]].
    + specialize (Hpre x Hx). lia.
    + rewrite Hx. lia.
    + specialize (Hpost x Hx). lia.
  - destruct (IH best) as (pre & post & Heq & Hpre & Hpost).
    destruct pre as [|b pre]; simpl in Heq.
    + injection Heq as Hm Hxs. exists [], (x :: post).
      split; [simpl; now rewrite <- Hm, Hxs|].
      split; [intros y []|].
      intros y [<-|Hy]; [rewrite <- Hm; lia|now apply Hpost].
    + injection Heq as <- Hxs. exists (best :: x :: pre), post.
      split; [simpl; do 2 f_equal; exact Hxs|]. split; [|exact Hpost].
      intros y [<-|[<-|Hy]].
      * apply Hpre. now left.
      * specialize (Hpre best (or_introl eq_refl)). lia.
      * apply Hpre. now right.
Qed.

Lemma ready_iff o (j : nat) :
  In j (get_ready_processes o) <-> state_is PRONTO (processes o) j = true.
Proof.
  unfold get_ready_processes. rewrite filter_In, in_seq. split; [tauto|].
  intros H. split; [|exact H].
  apply state_is_true in H. destruct H as (p & Hp & _).
  apply lookup_lt_Some in Hp. lia.
Qed.

Lemma nothing_ready o :
  get_ready_processes o = [] ->
  forall j : nat, state_is PRONTO (processes o) j = false.
Proof.
  intros H j. destruct (state_is PRONTO (processes o) j) eqn:E; [|reflexivity].
  apply ready_iff in E. rewrite H in E. destruct E.
Qed.

(** What [min] over the ready set returns, for any integer attribute. *)
Lemma select_min_spec (f : Process -> Z) o first rest :
  get_ready_processes o = first :: rest ->
  let r := min_by (attr f (processes o)) first rest in
  exists p,
    processes o !! r = Some p /\ state p = PRONTO /\
    forall (j : nat) q,
      processes o !! j = Some q -> state q = PRONTO ->
      f p <= f q /\ ((j < r)%nat -> f p < f q).
Proof.
  intros Hready r.
  destruct (min_by_first (attr f (processes o)) first rest)
    as (pre & post & Heq & Hpre & Hpost). fold r in Heq, Hpre, Hpost.
  assert (Hr : In r (get_ready_processes o))
    by (rewrite Hready, Heq; apply in_app_iff; right; now left).
  apply ready_iff, state_is_true in Hr. destruct Hr as (p & Hp & Hst).
  exists p. split; [exact Hp|]. split; [exact Hst|].
  intros j q Hq Hstq.
  assert (Hj : In j (pre ++ r :: post)).
  { rewrite <- Heq, <- Hready. apply ready_iff, state_is_true. eauto. }
  assert (Hkey : forall (x : nat) y, processes o !! x = Some y ->
                   attr f (processes o) x = f y).
  { intros x y Hx. unfold attr. now rewrite Hx. }
  rewrite <- Hready in Heq. unfold get_ready_processes in Heq.
  destruct (filter_seq_split _ _ _ _ _ _ Heq) as [Hbefore Hafter].
  apply in_app_iff in Hj. destruct Hj as [Hj|[Hj|Hj]].
  - specialize (Hpre j Hj). rewrite (Hkey _ _ Hp), (Hkey _ _ Hq) in Hpre.
    split; [lia|]. intros _. exact Hpre.
  - subst j. assert (q = p) as -> by congruence. split; [lia|]. lia.
  - specialize (Hpost j Hj). rewrite (Hkey _ _ Hp), (Hkey _ _ Hq) in Hpost.
    split; [exact Hpost|]. specialize (Hafter j Hj). lia.
Qed.

(** X6: FIFO returns the first Ready process of the table: the process
    returned is Ready and no process before it in the table is; and it
    returns none exactly when no process of the table is Ready. *)
Theorem fifo_selects_first_ready o :
  match select_next_process_fifo o with
  | Some r =>
    state_is PRONTO (processes o) r = true /\
    forall j : nat, (j < r)%nat -> state_is PRONTO (processes o) j = false
  | None => forall j : nat, state_is PRONTO (processes o) j = false
  end.
Proof.
  unfold select_next_process_fifo.
  pose proof (filter_seq_head (state_is PRONTO (processes o)) 0
                (length (processes o))) as H.
  destruct (get_ready_processes o) as [|r l] eqn:E;
    unfold get_ready_processes in E; rewrite E in H.
  - apply nothing_ready. exact E.
  - destruct H as [Hr Hbefore]. split; [exact Hr|].
    intros j Hj. apply Hbefore. lia.
Qed.

(** X7: SJF returns a Ready process of least remaining demand, and among
    those of least remaining demand the first of the table: every Ready
    process has at least its remaining demand, and every Ready process
    before it in the table has strictly more.  It returns none exactly when
    no process is Ready. *)
Theorem sjf_selects_least_remaining o :
  match select_next_process_sjf o with
  | Some r =>
    exists p,
      processes o !! r = Some p /\ state p = PRONTO /\
      forall (j : nat) q,
        processes o !! j = Some q -> state q = PRONTO ->
        cpu_remaining p <= cpu_remaining q /\
        ((j < r)%nat -> cpu_remaining p < cpu_remaining q)
  | None => forall j : nat, state_is PRONTO (processes o) j = false
  end.
Proof.
  unfold select_next_process_sjf.
  destruct (get_ready_processes o) as [|first rest] eqn:E.
  - now apply nothing_ready.
  - exact (select_min_spec cpu_remaining o first rest E).
Qed.

(** X8: Priority returns a Ready process of least priority value, and
    among those the first of the table; none exactly when no process is
    Ready. *)
Theorem prio_selects_least_priority o :
  match select_next_process_prio o with
  | Some r =>
    exists p,
      processes o !! r = Some p /\ state p = PRONTO /\
      forall (j : nat) q,
        processes o !! j = Some q -> state q = PRONTO ->
        priority p <= priority q /\
        ((j < r)%nat -> priority p < priority q)
  | None => forall j : nat, state_is PRONTO (processes o) j = false
  end.
Proof.
  unfold select_next_process_prio.
  destruct (get_ready_processes o) as [|first rest] eqn:E.
  - now apply nothing_ready.
  - exact (select_min_spec priority o first rest E).
Qed.

End Policies.

(** ** Whole runs, continued *)

Section Halting.

Implicit Types (s : Session) (o : OperatingSystem) (p : Process)
  (ps : list Process).

(** X9: the loop of [run_simulation] always ends.  From any session,
    under any name and from any cycle count, it is left after at most one
    pass per unit of workload (one unit per unit of remaining demand of a
    Ready process, at least one per Ready process) plus one; more passes
    allowed change nothing; and the cycle count it is left with has grown
    by the workload at most. *)
Theorem run_loop_halts algorithm s cycle :
  exists how,
    (forall fuel,
       (workload (sys s) < fuel)%nat ->
       run_loop fuel algorithm s cycle = Some how) /\
    match how with
    | Break _ cycle' => cycle <= cycle' <= cycle + Z.of_nat (workload (sys s))
    | Return _ => True
    end.
Proof.
  destruct (run_loop_enough (S (workload (sys s))) algorithm s cycle)
    as [how Hhow]; [lia|].
  exists how. split.
  - intros fuel Hfuel. eapply run_loop_more; [exact Hhow|lia].
  - destruct (run_loop_invariant
                (fun s1 c1 =>
                   cycle <= c1 /\
                   c1 + Z.of_nat (workload (sys s1)) <=
                   cycle + Z.of_nat (workload (sys s)))
                algorithm)
      with (fuel := S (workload (sys s))) (s := s) (cycle := cycle) (how := how)
      as (s1 & c1 & [Hlo Hhi] & Hleave); [|lia|exact Hhow|].
    { intros s1 c1 s2 c2 [Hlo Hhi] Hpass.
      pose proof (loop_body_decreases _ _ _ _ _ Hpass) as Hdec.
      apply loop_body_continue in Hpass.
      destruct Hpass as (_ & _ & _ & _ & _ & _ & _ & _ & ->). lia. }
    apply loop_body_leave in Hleave.
    destruct Hleave as (s' & [-> | ->] & _); [lia|exact I].
Qed.

Lemma idle_notice_all_finished ps :
  idle_notice ps = MsgAllFinished <->
  forall p, In p ps -> state p = FINALIZADO.
Proof.
  unfold idle_notice. induction ps as [|p ps IH]; simpl.
  - split; [intros _ q []|reflexivity].
  - destruct (state_eqb (state p) FINALIZADO) eqn:E; simpl.
    + apply state_eqb_eq in E. rewrite IH. split.
      * intros H q [<-|Hq]; [exact E|now apply H].
      * intros H q Hq. apply H. now right.
    + apply state_eqb_neq in E. split; [discriminate|].
      intros H. destruct E. apply H. now left.
Qed.

(** X10: a run that finds no Ready process, under any name, known or
    not: it executes no cycle, changes nothing in the operating system and
    does not read the clock; after its opening line it prints that all
    processes are finished if every process of the table is Finished (an
    empty table included) and that none is Ready otherwise, then the
    summary of 0 cycles, and what it does last is [show_metrics]. *)
Theorem idle_run algorithm s :
  get_ready_processes (sys s) = [] ->
  let s1 :=
    print (MsgConcluded 0)
      (print (idle_notice (processes (sys s)))
         (print (MsgRunning (upper (lower algorithm))) s)) in
  run_simulation algorithm s = show_metrics s1 /\
  stdout s1 =
    stdout s ++
    [MsgRunning (upper (lower algorithm)); idle_notice (processes (sys s));
     MsgConcluded 0] /\
  sys s1 = sys s /\ ticks s1 = ticks s /\
  sys (run_simulation algorithm s) = sys s /\
  ticks (run_simulation algorithm s) = ticks s /\
  (idle_notice (processes (sys s)) = MsgAllFinished <->
   forall p, In p (processes (sys s)) -> state p = FINALIZADO) /\
  (idle_notice (processes (sys s)) <> MsgAllFinished ->
   idle_notice (processes (sys s)) = MsgNoneReady).
Proof.
  intros Hidle s1.
  set (s0 := print (MsgRunning (upper (lower algorithm))) s).
  assert (Hrun : run_simulation algorithm s = show_metrics s1).
  { unfold run_simulation. fold s0. cbn [run_loop]. unfold loop_body.
    change (sys s0) with (sys s). rewrite Hidle. subst s1. unfold idle_notice.
    destruct (List.filter _ (processes (sys s))); reflexivity. }
  split; [exact Hrun|]. rewrite Hrun.
  destruct (show_metrics_frame s1) as (H1 & _ & H3 & _).
  split; [subst s1; simpl; now rewrite <- !app_assoc|].
  split; [reflexivity|]. split; [reflexivity|].
  split; [exact H1|]. split; [exact H3|].
  split; [apply idle_notice_all_finished|].
  unfold idle_notice. destruct (List.filter _ _); [congruence|reflexivity].
Qed.

Lemma idle_run_witness :
  let s := perform_all [CmdCreate "A" 3 100 3; CmdBlock 1] (boot 2 steady_clock) in
  let s1 :=
    print (MsgConcluded 0)
      (print (idle_notice (processes (sys s)))
         (print (MsgRunning (upper (lower "sjf"))) s)) in
  get_ready_processes (sys s) = [] /\
  run_simulation "sjf" s = show_metrics s1 /\
  stdout s1 = stdout s ++ [MsgRunning "SJF"; MsgNoneReady; MsgConcluded 0] /\
  sys (run_simulation "sjf" s) = sys s.
Proof.
  intros s s1.
  assert (Hidle : get_ready_processes (sys s) = []) by (vm_compute; reflexivity).
  destruct (idle_run "sjf" s Hidle) as (H1 & H2 & _ & _ & H3 & _).
  split; [exact Hidle|]. split; [exact H1|]. split; [exact H2|exact H3].
Defined.

(** What is not Ready when a run starts is not touched by it. *)
Lemma not_ready_after_run algorithm s (i : nat) p :
  processes (sys s) !! i = Some p -> state p <> PRONTO ->
  processes (sys (run_simulation algorithm s)) !! i = Some p.
Proof.
  intros Hp Hst.
  apply (run_simulation_keeps (fun ps => ps !! i = Some p)); [|exact Hp].
  intros ps r p0 now Hi Hr Hst0.
  rewrite list_lookup_insert_ne; [exact Hi|].
  intros ->. congruence.
Qed.

(** X11: a run, under any name, rewrites only processes that were Ready
    when it started: a process that was Blocked or Finished then is the
    very same afterwards, in every field; and the table has the same
    length, with no process added or removed. *)
Theorem run_touches_only_ready algorithm s (i : nat) p :
  processes (sys s) !! i = Some p ->
  state p <> PRONTO ->
  processes (sys (run_simulation algorithm s)) !! i = Some p /\
  length (processes (sys (run_simulation algorithm s))) =
    length (processes (sys s)).
Proof.
  intros Hp Hst. split; [now apply not_ready_after_run|].
  apply (run_simulation_keeps
           (fun ps => length ps = length (processes (sys s))));
    [|reflexivity].
  intros ps r q now Hlen _ _. now rewrite length_insert.
Qed.

Lemma run_touches_only_ready_witness :
  let s := perform_all
             [CmdCreate "A" 3 100 3; CmdCreate "B" 2 100 1; CmdKill 1]
             (boot 2 steady_clock) in
  let p := {| pid := 1; name := "A"; cpu_time := 3; cpu_remaining := 0;
              memory := 100; priority := 3; state := FINALIZADO;
              arrival_time := 1000; finish_time := Some 1002 |} in
  processes (sys s) !! 0%nat = Some p /\
  state p <> PRONTO /\
  processes (sys (run_simulation "rr" s)) !! 0%nat = Some p.
Proof.
  intros s p.
  assert (Hp : processes (sys s) !! 0%nat = Some p) by (vm_compute; reflexivity).
  assert (Hst : state p <> PRONTO) by discriminate.
  split; [exact Hp|]. split; [exact Hst|].
  exact (proj1 (run_touches_only_ready "rr" s 0 p Hp Hst)).
Defined.

(** X12: a process that is blocked sits out the next run: after
    [block_process] on a process that is found and not Finished, a run under
    any name leaves that process as the blocking made it, Blocked and with
    its remaining demand untouched. *)
Theorem blocked_process_sits_out algorithm wanted s (r : nat) p :
  get_process_by_pid wanted (sys s) = Some r ->
  processes (sys s) !! r = Some p ->
  state p <> FINALIZADO ->
  processes (sys (run_simulation algorithm (block_process wanted s))) !! r =
    Some (set_state BLOQUEADO p).
Proof.
  intros Hr Hp Hst. apply not_ready_after_run; [|discriminate].
  unfold block_process. rewrite Hr, (state_is_lookup _ _ _ _ Hp).
  apply state_eqb_neq in Hst. rewrite Hst. simpl.
  now rewrite list_lookup_alter_eq, Hp.
Qed.

Lemma blocked_process_sits_out_witness :
  let s := perform_all [CmdCreate "A" 3 100 3; CmdCreate "B" 2 100 1]
             (boot 2 steady_clock) in
  exists p,
    get_process_by_pid 2 (sys s) = Some 1%nat /\
    processes (sys s) !! 1%nat = Some p /\
    state p <> FINALIZADO /\
    processes (sys (run_simulation "rr" (block_process 2 s))) !! 1%nat =
      Some (set_state BLOQUEADO p).
Proof.
  intros s. eexists.
  assert (Hr : get_process_by_pid 2 (sys s) = Some 1%nat) by (vm_compute; reflexivity).
  split; [exact Hr|]. split; [vm_compute; reflexivity|].
  split; [discriminate|].
  apply (blocked_process_sits_out "rr" 2 s 1 _ Hr eq_refl). discriminate.
Defined.

Lemma same_identity_refl p : same_identity p p.
Proof. repeat split. Qed.

Lemma same_identity_ran now p p' :
  same_identity p p' -> same_identity p (ran now p').
Proof.
  intros H. unfold ran. simpl.
  destruct (cpu_remaining p' - 1 <=? 0); exact H.
Qed.

Lemma alter_keeps (P : Process -> Prop) (f : Process -> Process) ps (r i : nat) :
  (forall p, P p -> P (f p)) ->
  (exists p', ps !! i = Some p' /\ P p') ->
  exists p', alter f r ps !! i = Some p' /\ P p'.
Proof.
  intros Hf (p' & Hi & HP). destruct (decide (r = i)) as [->|Hne].
  - exists (f p'). split; [now rewrite list_lookup_alter_eq, Hi|now apply Hf].
  - exists p'. split; [now rewrite list_lookup_alter_ne|exact HP].
Qed.

(** X13: no command removes or moves a process or rewrites what it was
    created with: after any command, every process of the table is still
    at its position, with the same identifier, name, total demand, memory,
    priority and creation timestamp. *)
Theorem identity_is_kept c s (i : nat) p :
  processes (sys s) !! i = Some p ->
  exists p',
    processes (sys (perform c s)) !! i = Some p' /\ same_identity p p'.
Proof.
  intros Hp.
  assert (H0 : exists p', processes (sys s) !! i = Some p' /\ same_identity p p')
    by (exists p; split; [exact Hp|apply same_identity_refl]).
  destruct c as [n c m pr| |algorithm|w|w|w]; cbn [perform].
  - exists p. split; [|apply same_identity_refl].
    rewrite create_process_table. now apply lookup_app_l_Some.
  - now rewrite list_processes_frame.
  - apply (run_simulation_keeps
             (fun ps => exists p', ps !! i = Some p' /\ same_identity p p'));
      [|exact H0].
    intros ps r p0 now (p' & Hi & Hsame) Hr _.
    destruct (decide (r = i)) as [->|Hne].
    + exists (ran now p0). split.
      * apply list_lookup_insert_eq. eapply lookup_lt_Some, Hr.
      * apply same_identity_ran. congruence.
    + exists p'. split; [now rewrite list_lookup_insert_ne|exact Hsame].
  - unfold block_process.
    destruct (get_process_by_pid w (sys s)) as [r|]; [|exact H0].
    destruct (state_is FINALIZADO (processes (sys s)) r); [exact H0|].
    simpl. apply alter_keeps; [|exact H0]. intros q Hq. exact Hq.
  - unfold unblock_process.
    destruct (get_process_by_pid w (sys s)) as [r|]; [|exact H0].
    destruct (state_is BLOQUEADO (processes (sys s)) r); [|exact H0].
    simpl. apply alter_keeps; [|exact H0]. intros q Hq. exact Hq.
  - unfold kill_process.
    destruct (get_process_by_pid w (sys s)) as [r|]; [|exact H0].
    simpl. rewrite !list_alter_alter_eq.
    apply alter_keeps; [|exact H0]. intros q Hq. exact Hq.
Qed.

Lemma identity_is_kept_witness :
  let s := perform_all [CmdCreate "A" 3 100 3; CmdCreate "B" 2 100 1]
             (boot 2 steady_clock) in
  exists p p',
    processes (sys s) !! 0%nat = Some p /\
    processes (sys (perform (CmdRun "prio") s)) !! 0%nat = Some p' /\
    same_identity p p'.
Proof.
  intros s.
  destruct (identity_is_kept (CmdRun "prio") s 0
              {| pid := 1; name := "A"; cpu_time := 3; cpu_remaining := 3;
                 memory := 100; priority := 3; state := PRONTO;
                 arrival_time := 1000; finish_time := None |})
    as (p' & H1 & H2); [vm_compute; reflexivity|].
  eexists. exists p'. split; [vm_compute; reflexivity|].
  split; [exact H1|exact H2].
Defined.

(** X14: in a session that can be reached, no command gives a process
    more to run: after any command the remaining demand of every process is
    at most what it was. *)
Theorem remaining_never_increases c s (i : nat) p :
  reachable s ->
  processes (sys s) !! i = Some p ->
  exists p',
    processes (sys (perform c s)) !! i = Some p' /\
    cpu_remaining p' <= cpu_remaining p.
Proof.
  intros Hreach Hp.
  set (P := fun q => cpu_remaining q <= cpu_remaining p).
  assert (H0 : exists p', processes (sys s) !! i = Some p' /\ P p')
    by (exists p; split; [exact Hp|unfold P; lia]).
  destruct c as [n c m pr| |algorithm|w|w|w]; cbn [perform].
  - exists p. split; [|lia].
    rewrite create_process_table. now apply lookup_app_l_Some.
  - now rewrite list_processes_frame.
  - apply (run_simulation_keeps (fun ps => exists p', ps !! i = Some p' /\ P p'));
      [|exact H0].
    intros ps r p0 now (p' & Hi & Hle) Hr _.
    destruct (decide (r = i)) as [->|Hne].
    + exists (ran now p0). split.
      * apply list_lookup_insert_eq. eapply lookup_lt_Some, Hr.
      * assert (p0 = p') as -> by congruence. unfold P, ran in *. simpl.
        destruct (cpu_remaining p' - 1 <=? 0); simpl; lia.
    + exists p'. split; [now rewrite list_lookup_insert_ne|exact Hle].
  - unfold block_process.
    destruct (get_process_by_pid w (sys s)) as [r|]; [|exact H0].
    destruct (state_is FINALIZADO (processes (sys s)) r); [exact H0|].
    simpl. apply alter_keeps; [|exact H0]. intros q Hq. exact Hq.
  - unfold unblock_process.
    destruct (get_process_by_pid w (sys s)) as [r|]; [|exact H0].
    destruct (state_is BLOQUEADO (processes (sys s)) r); [|exact H0].
    simpl. apply alter_keeps; [|exact H0]. intros q Hq. exact Hq.
  - unfold kill_process.
    destruct (get_process_by_pid w (sys s)) as [r|]; [|exact H0].
    simpl. rewrite !list_alter_alter_eq.
    destruct (decide (r = i)) as [->|Hne].
    + eexists. split; [now rewrite list_lookup_alter_eq, Hp|].
      simpl. apply reachable_sound in Hreach.
      pose proof (Forall_lookup_1 _ _ _ _ Hreach Hp) as (_ & _ & _ & H4 & H5).
      destruct (state p) eqn:E;
        try (destruct H5 as [H5 _]; [congruence|lia]).
      destruct H4 as [H4 _]; [reflexivity|lia].
    + exists p. split; [now rewrite list_lookup_alter_ne|lia].
Qed.

Lemma remaining_never_increases_witness :
  let s := perform_all [CmdCreate "A" 3 100 3; CmdCreate "B" 2 100 1]
             (boot 2 steady_clock) in
  reachable s /\
  exists p p',
    processes (sys s) !! 1%nat = Some p /\
    processes (sys (perform (CmdKill 2) s)) !! 1%nat = Some p' /\
    cpu_remaining p' <= cpu_remaining p.
Proof.
  intros s.
  assert (Hreach : reachable s) by apply reachable_perform_all, reach_boot.
  split; [exact Hreach|].
  destruct (remaining_never_increases (CmdKill 2) s 1
              {| pid := 2; name := "B"; cpu_time := 2; cpu_remaining := 2;
                 memory := 100; priority := 1; state := PRONTO;
                 arrival_time := 1001; finish_time := None |} Hreach)
    as (p' & H1 & H2); [vm_compute; reflexivity|].
  eexists. exists p'. split; [vm_compute; reflexivity|].
  split; [exact H1|exact H2].
Defined.

End Halting.

(** ** Runs that serve every Ready process *)

Section Service.

Implicit Types (s : Session) (o : OperatingSystem) (p : Process)
  (ps : list Process).

(** A pass that goes on, in full: the session it ends in is the one
    [execute] makes of the session the selection left. *)
Lemma loop_body_continue_execute algorithm s cycle s' cycle' :
  loop_body algorithm s cycle = Continue s' cycle' ->
  exists (r : nat) p o,
    processes (sys s) !! r = Some p /\ state p = PRONTO /\
    processes o = processes (sys s) /\
    s' = execute r (cycle + 1) (with_sys (fun _ => o) s) /\
    cycle' = cycle + 1.
Proof.
  unfold loop_body.
  destruct (get_ready_processes (sys s)).
  { destruct (List.filter _ _); discriminate. }
  destruct (dispatch algorithm (sys s)) as [[[r|] o]|] eqn:D; try discriminate.
  intros [= <- <-].
  destruct (dispatch_frame _ _ _ _ D) as (Hps & _).
  apply dispatch_ready, state_is_true in D. destruct D as (p & Hp & Hst).
  exists r, p, o. auto.
Qed.

Lemma loop_body_continue_session algorithm s cycle s' cycle' :
  loop_body algorithm s cycle = Continue s' cycle' ->
  exists (r : nat) p,
    processes (sys s) !! r = Some p /\ state p = PRONTO /\
    processes (sys s') = <[r := ran (clock s (ticks s)) p]> (processes (sys s)) /\
    clock s' = clock s /\
    ticks s' = (if cpu_remaining p - 1 <=? 0 then S (ticks s) else ticks s) /\
    stdout s' = stdout s ++
      MsgCycle (cycle + 1) (name p) (pid p) (cpu_remaining p - 1) ::
      (if cpu_remaining p - 1 <=? 0 then [MsgProcessFinished (pid p)] else []) /\
    cycle' = cycle + 1.
Proof.
  intros H. apply loop_body_continue_execute in H.
  destruct H as (r & p & o & Hp & Hst & Hps & -> & ->).
  exists r, p. split; [exact Hp|]. split; [exact Hst|].
  rewrite (execute_unfold r (cycle + 1) (with_sys (fun _ => o) s) p)
    by (simpl; now rewrite Hps).
  simpl. rewrite Hps. repeat split.
Qed.

Lemma ran_demand_exact now p :
  sound p -> state p = PRONTO -> (demand (ran now p) + 1 = demand p)%nat.
Proof.
  intros (_ & _ & _ & _ & H5) Hst. destruct H5 as [H5 _]; [congruence|].
  unfold ran, demand. rewrite Hst. simpl.
  destruct (Z.leb_spec (cpu_remaining p - 1) 0); simpl; lia.
Qed.

Lemma workload_idle o : get_ready_processes o = [] -> workload o = 0%nat.
Proof.
  intros H. pose proof (nothing_ready o H) as Hnone.
  assert (Hall : Forall (fun p => state p <> PRONTO) (processes o)).
  { apply Forall_lookup. intros i p Hp Hst.
    specialize (Hnone i). rewrite (state_is_lookup _ _ _ _ Hp), Hst in Hnone.
    discriminate. }
  unfold workload. revert Hall. generalize (processes o) as ps.
  induction 1 as [|p ps Hp _ IH]; simpl; [reflexivity|].
  rewrite IH. unfold demand.
  destruct (state p) eqn:E; try reflexivity. congruence.
Qed.

Lemma workload_ready_demand ps :
  Forall sound ps ->
  Z.of_nat (foldr (fun p n => (demand p + n)%nat) 0%nat ps) = ready_demand ps.
Proof.
  induction 1 as [|p ps Hp _ IH]; simpl; [reflexivity|].
  rewrite Nat2Z.inj_add, IH. f_equal.
  destruct Hp as (_ & _ & _ & _ & H5). unfold demand.
  destruct (state p) eqn:E; simpl; try reflexivity.
  destruct H5 as [H5 _]; [discriminate|]. lia.
Qed.

(** With a Ready process in the table, FIFO, SJF and Priority find one. *)
Lemma dispatch_serves algorithm o :
  algorithm = "fifo" \/ algorithm = "sjf" \/ algorithm = "prio" ->
  get_ready_processes o <> [] ->
  exists r : nat, dispatch algorithm o = Some (Some r, o).
Proof.
  intros Halg Hready. unfold dispatch, select_next_process_fifo,
    select_next_process_sjf, select_next_process_prio.
  destruct (get_ready_processes o) as [|a l]; [congruence|].
  destruct Halg as [-> | [-> | ->]]; simpl; eauto.
Qed.

(** A run under a policy that finds a process whenever one is Ready (as
    long as [K] holds, which the passes keep) serves every Ready process to
    its end. *)
Lemma run_to_idle (K : OperatingSystem -> Prop) algorithm s :
  Forall sound (processes (sys s)) ->
  K (sys s) ->
  (forall s1 c1 s2 c2,
     K (sys s1) -> loop_body (lower algorithm) s1 c1 = Continue s2 c2 ->
     K (sys s2)) ->
  (forall s1 c1 how,
     K (sys s1) -> get_ready_processes (sys s1) <> [] ->
     loop_body (lower algorithm) s1 c1 <> Leave how) ->
  let total := ready_demand (processes (sys s)) in
  let s0 := print (MsgRunning (upper (lower algorithm))) s in
  let s' := run_simulation algorithm s in
  (exists s1,
     run_loop (S (workload (sys s0))) (lower algorithm) s0 0 =
       Some (Break s1 total) /\
     s' = show_metrics (print (MsgConcluded total) s1)) /\
  In (MsgConcluded total) (stdout s') /\
  get_ready_processes (sys s') = [] /\
  (forall (i : nat) p,
     processes (sys s) !! i = Some p -> state p = PRONTO ->
     exists p',
       processes (sys s') !! i = Some p' /\ state p' = FINALIZADO /\
       cpu_remaining p' = 0 /\ finish_time p' <> None).
Proof.
  intros Hsound HK Hkeep Hgo total s0 s'.
  destruct (run_simulation_leaves_loop algorithm s) as (how & Hloop & Hrun).
  fold s0 in Hloop. fold s' in Hrun.
  destruct (run_loop_invariant
              (fun s1 c1 =>
                 K (sys s1) /\
                 Forall sound (processes (sys s1)) /\
                 c1 + Z.of_nat (workload (sys s1)) = total /\
                 forall (i : nat) p,
                   processes (sys s) !! i = Some p -> state p = PRONTO ->
                   exists p', processes (sys s1) !! i = Some p' /\
                     (state p' = PRONTO \/ state p' = FINALIZADO))
              (lower algorithm))
    with (fuel := S (workload (sys s0))) (s := s0) (cycle := 0) (how := how)
    as (s1 & c1 & (HK1 & Hs1 & Hc1 & Htrack) & Hleave); [| |exact Hloop|].
  { intros s1 c1 s2 c2 (HK1 & Hs1 & Hc1 & Htrack) Hpass.
    split; [eapply Hkeep; eassumption|].
    apply loop_body_continue in Hpass.
    destruct Hpass as (r & p & Hp & Hst & Hps & _ & _ & _ & ->).
    pose proof (Forall_lookup_1 _ _ _ _ Hs1 Hp) as Hsp.
    split; [|split].
    - rewrite Hps. apply Forall_insert; [exact Hs1|now apply sound_ran].
    - pose proof (workload_insert _ _ _ (ran (clock s1 (ticks s1)) p) Hp) as Hw.
      pose proof (ran_demand_exact (clock s1 (ticks s1)) p Hsp Hst) as Hd.
      unfold workload in *. rewrite Hps. lia.
    - intros i q Hq Hstq. destruct (Htrack i q Hq Hstq) as (q' & Hq' & Hor).
      rewrite Hps. destruct (decide (r = i)) as [->|Hne].
      + exists (ran (clock s1 (ticks s1)) p). split.
        * apply list_lookup_insert_eq. eapply lookup_lt_Some, Hp.
        * unfold ran. simpl.
          destruct (cpu_remaining p - 1 <=? 0); simpl; auto.
      + exists q'. split; [now rewrite list_lookup_insert_ne|exact Hor]. }
  { split; [exact HK|]. split; [exact Hsound|]. split.
    - simpl. unfold total, workload. now rewrite workload_ready_demand.
    - intros i p Hp Hst. exists p. auto. }
  assert (Hidle : get_ready_processes (sys s1) = []).
  { destruct (get_ready_processes (sys s1)) as [|a l] eqn:E; [reflexivity|].
    destruct (Hgo s1 c1 how HK1); [congruence|exact Hleave]. }
  assert (Hhow : how = Break (print (idle_notice (processes (sys s1))) s1) c1).
  { unfold loop_body in Hleave. rewrite Hidle in Hleave. unfold idle_notice.
    destruct (List.filter _ (processes (sys s1))); now injection Hleave as <-. }
  rewrite (workload_idle _ Hidle) in Hc1.
  assert (c1 = total) as -> by lia.
  subst how. simpl in Hrun.
  destruct (show_metrics_frame
              (print (MsgConcluded total)
                 (print (idle_notice (processes (sys s1))) s1)))
    as (H1 & _ & _ & H4).
  split; [eexists; split; [exact Hloop|exact Hrun]|].
  rewrite Hrun. split; [|split].
  - rewrite H4. simpl. rewrite !in_app_iff. simpl. tauto.
  - rewrite H1. exact Hidle.
  - intros i p Hp Hst. destruct (Htrack i p Hp Hst) as (p' & Hp' & Hor).
    exists p'. rewrite H1. simpl. split; [exact Hp'|].
    assert (Hfin : state p' = FINALIZADO).
    { destruct Hor as [Hready|Hfin]; [|exact Hfin].
      pose proof (nothing_ready _ Hidle i) as Hno.
      rewrite (state_is_lookup _ _ _ _ Hp'), Hready in Hno. discriminate. }
    split; [exact Hfin|].
    pose proof (Forall_lookup_1 _ _ _ _ Hs1 Hp') as (_ & _ & _ & H4' & _).
    destruct (H4' Hfin) as [Hzero [t Ht]]. split; [exact Hzero|congruence].
Qed.

(** X15: a run under FIFO, SJF or Priority, in any spelling, from a
    session that can be reached, serves every Ready process to its end.
    The loop is left by [break] with a cycle count equal to the remaining
    demands of the Ready processes added up, and that is the count of the
    summary; afterwards no process is Ready, and every process that was
    Ready is Finished, with nothing left to run and a completion
    timestamp. *)
Theorem run_serves_every_ready algorithm s :
  reachable s ->
  lower algorithm = "fifo" \/ lower algorithm = "sjf" \/ lower algorithm = "prio" ->
  let total := ready_demand (processes (sys s)) in
  let s0 := print (MsgRunning (upper (lower algorithm))) s in
  let s' := run_simulation algorithm s in
  (exists s1,
     run_loop (S (workload (sys s0))) (lower algorithm) s0 0 =
       Some (Break s1 total) /\
     s' = show_metrics (print (MsgConcluded total) s1)) /\
  In (MsgConcluded total) (stdout s') /\
  get_ready_processes (sys s') = [] /\
  (forall (i : nat) p,
     processes (sys s) !! i = Some p -> state p = PRONTO ->
     exists p',
       processes (sys s') !! i = Some p' /\ state p' = FINALIZADO /\
       cpu_remaining p' = 0 /\ finish_time p' <> None).
Proof.
  intros Hreach Halg.
  apply (run_to_idle (fun _ => True)); [now apply reachable_sound|exact I|auto|].
  intros s1 c1 how _ Hready Hleave.
  destruct (dispatch_serves (lower algorithm) (sys s1) Halg Hready) as (r & Hd).
  unfold loop_body in Hleave. rewrite Hd in Hleave.
  destruct (get_ready_processes (sys s1)); [congruence|discriminate].
Qed.

Lemma run_serves_every_ready_witness :
  let s := perform_all
             [CmdCreate "A" 3 100 3; CmdCreate "B" 2 100 1; CmdCreate "C" 4 10 2;
              CmdBlock 3] (boot 2 steady_clock) in
  reachable s /\
  ready_demand (processes (sys s)) = 5 /\
  In (MsgConcluded 5) (stdout (run_simulation "SJF" s)) /\
  get_ready_processes (sys (run_simulation "SJF" s)) = [].
Proof.
  intros s.
  assert (Hreach : reachable s) by apply reachable_perform_all, reach_boot.
  assert (Halg : lower "SJF" = "fifo" \/ lower "SJF" = "sjf" \/ lower "SJF" = "prio")
    by (right; left; reflexivity).
  destruct (run_serves_every_ready "SJF" s Hreach Halg) as (_ & H2 & H3 & _).
  split; [exact Hreach|]. split; [vm_compute; reflexivity|].
  split; [exact H2|exact H3].
Defined.

End Service.

(** ** The console of a run *)

Section Console.

Implicit Types (s : Session) (o : OperatingSystem) (p : Process)
  (ps : list Process).

Lemma cycle_numbers_app out out' :
  cycle_numbers (out ++ out') = cycle_numbers out ++ cycle_numbers out'.
Proof.
  induction out as [|l out IH]; simpl; [reflexivity|].
  destruct l; simpl; now rewrite IH.
Qed.

Lemma metrics_line_quiet p :
  cycle_numbers [metrics_line p] = [] /\
  forall m, metrics_line p <> MsgConcluded m.
Proof.
  unfold metrics_line. destruct (truthy (turnaround_time p)); simpl;
    (split; [reflexivity|discriminate]).
Qed.

Lemma metrics_lines_quiet ps :
  cycle_numbers (map metrics_line ps) = [] /\
  forall m, ~ In (MsgConcluded m) (map metrics_line ps).
Proof.
  induction ps as [|p ps [IH1 IH2]]; [split; [reflexivity|intros m []]|].
  cbn [map]. destruct (metrics_line_quiet p) as [H1 H2]. split.
  - change (metrics_line p :: map metrics_line ps)
      with ([metrics_line p] ++ map metrics_line ps).
    now rewrite cycle_numbers_app, H1, IH1.
  - intros m [H|H]; [exact (H2 m H)|exact (IH2 m H)].
Qed.

(** Where the loop is left, the pass has printed a notice at most. *)
Lemma loop_body_leave_console algorithm s cycle how :
  loop_body algorithm s cycle = Leave how ->
  exists s' tail,
    (how = Break s' cycle \/ how = Return s') /\
    stdout s' = stdout s ++ tail /\
    cycle_numbers tail = [] /\
    forall m, ~ In (MsgConcluded m) tail.
Proof.
  unfold loop_body.
  destruct (get_ready_processes (sys s)).
  { destruct (List.filter _ _); intros [= <-]; eexists; eexists;
      (split; [left; reflexivity|]); (split; [reflexivity|]);
      (split; [reflexivity|]); intros m [H|[]]; discriminate. }
  destruct (dispatch algorithm (sys s)) as [[[r|] o]|] eqn:D;
    [discriminate| |]; intros [= <-].
  - exists (with_sys (fun _ => o) s), []. split; [left; reflexivity|].
    split; [simpl; now rewrite app_nil_r|]. split; [reflexivity|intros m []].
  - eexists. eexists. split; [right; reflexivity|].
    split; [reflexivity|]. split; [reflexivity|].
    intros m [H|[]]; discriminate.
Qed.

(** X16: the cycles a run prints are numbered 1, 2, 3, ... without gap or
    repeat, whatever the name and the session; and if the run prints a
    summary, it prints one, and the count in it is the number of the last
    cycle printed (0 if none was). *)
Theorem cycles_are_numbered algorithm s :
  exists (n : nat) lines,
    stdout (run_simulation algorithm s) = stdout s ++ lines /\
    cycle_numbers lines = map Z.of_nat (seq 1 n) /\
    forall m, In (MsgConcluded m) lines -> m = Z.of_nat n.
Proof.
  destruct (run_simulation_leaves_loop algorithm s) as (how & Hloop & ->).
  set (s0 := print (MsgRunning (upper (lower algorithm))) s) in *.
  destruct (run_loop_invariant
              (fun s1 c1 =>
                 exists (n : nat) lines,
                   c1 = Z.of_nat n /\
                   stdout s1 = stdout s ++ lines /\
                   cycle_numbers lines = map Z.of_nat (seq 1 n) /\
                   forall m, ~ In (MsgConcluded m) lines)
              (lower algorithm))
    with (fuel := S (workload (sys s0))) (s := s0) (cycle := 0) (how := how)
    as (s1 & c1 & (n & lines & -> & Hout & Hnum & Hquiet) & Hleave);
    [| |exact Hloop|].
  { intros s1 c1 s2 c2 (n & lines & -> & Hout & Hnum & Hquiet) Hpass.
    apply loop_body_continue_session in Hpass.
    destruct Hpass as (r & p & _ & _ & _ & _ & _ & Hout2 & ->).
    exists (S n). eexists. split; [lia|]. split.
    - rewrite Hout2, Hout, <- app_assoc. reflexivity.
    - split.
      + rewrite cycle_numbers_app, Hnum, seq_S, map_app. simpl.
        replace (Z.of_nat n + 1) with (Z.of_nat (1 + n)) by lia.
        destruct (cpu_remaining p - 1 <=? 0); reflexivity.
      + intros m Hin. apply in_app_iff in Hin. destruct Hin as [Hin|Hin].
        * exact (Hquiet m Hin).
        * destruct (cpu_remaining p - 1 <=? 0); simpl in Hin;
            decompose [or] Hin; try discriminate; assumption. }
  { exists 0%nat, [MsgRunning (upper (lower algorithm))].
    split; [reflexivity|]. split; [reflexivity|]. split; [reflexivity|].
    intros m [H|[]]. discriminate. }
  apply loop_body_leave_console in Hleave.
  destruct Hleave as (s' & tail & Hhow & Hout' & Htail & Hquiet').
  exists n. destruct Hhow as [-> | ->]; simpl.
  - destruct (show_metrics_frame (print (MsgConcluded (Z.of_nat n)) s'))
      as (_ & _ & _ & ->).
    destruct (metrics_lines_quiet (processes (sys s'))) as [Hm1 Hm2].
    simpl. eexists. split.
    + rewrite Hout', Hout, <- !app_assoc. reflexivity.
    + split.
      * rewrite !cycle_numbers_app, Hnum, Htail. simpl. rewrite Hm1.
        now rewrite !app_nil_r.
      * intros m Hin. rewrite !in_app_iff in Hin. simpl in Hin.
        destruct Hin as [Hin|[Hin|[[Hin|[]]|[Hin|Hin]]]].
        -- destruct (Hquiet m Hin).
        -- destruct (Hquiet' m Hin).
        -- congruence.
        -- discriminate.
        -- destruct (Hm2 m Hin).
  - eexists. split.
    + rewrite Hout', Hout, <- app_assoc. reflexivity.
    + split.
      * rewrite cycle_numbers_app, Hnum, Htail. now rewrite app_nil_r.
      * intros m Hin. apply in_app_iff in Hin. destruct Hin as [Hin|Hin].
        -- destruct (Hquiet m Hin).
        -- destruct (Hquiet' m Hin).
Qed.

(** X17: [list_processes] changes nothing and does not read the clock;
    on an empty table it prints the one line saying so, and otherwise the
    header, the rule and one row per process, in the order of the table,
    finished processes included. *)
Theorem list_processes_console s :
  sys (list_processes s) = sys s /\
  ticks (list_processes s) = ticks s /\
  stdout (list_processes s) =
    stdout s ++
    match processes (sys s) with
    | [] => [MsgNoProcess]
    | ps => MsgTableHeader :: MsgTableRule :: map table_row ps
    end.
Proof.
  unfold list_processes.
  destruct (processes (sys s)) as [|p ps] eqn:E; [repeat split|].
  rewrite <- E.
  destruct (show_lines_frame table_row (processes (sys s))
              (print MsgTableRule (print MsgTableHeader s)))
    as (H1 & _ & H3 & H4).
  split; [exact H1|]. split; [exact H3|].
  etransitivity; [exact H4|]. simpl. now rewrite <- !app_assoc.
Qed.

End Console.

(** ** Timestamps and metrics *)

Section Timing.

Implicit Types (s : Session) (o : OperatingSystem) (p : Process)
  (ps : list Process).

Lemma stamped_more clk (n n' : nat) p :
  (n <= n')%nat -> stamped clk n p -> stamped clk n' p.
Proof.
  intros Hle (k & Hk & Ha & Hf). exists k. split; [lia|]. split; [exact Ha|].
  destruct (finish_time p); [|exact I].
  destruct Hf as (j & Hj & ->). exists j. split; [lia|reflexivity].
Qed.

Lemma stamped_finished clk (n : nat) (f : Process -> Process) p :
  arrival_time (f p) = arrival_time p ->
  finish_time (f p) = Some (clk n) ->
  stamped clk n p -> stamped clk (S n) (f p).
Proof.
  intros Ha Hf (k & Hk & Hak & _). exists k. split; [lia|].
  split; [congruence|]. rewrite Hf. exists n. split; [lia|reflexivity].
Qed.

Lemma stamped_same clk (n : nat) (f : Process -> Process) p :
  arrival_time (f p) = arrival_time p ->
  finish_time (f p) = finish_time p ->
  stamped clk n p -> stamped clk n (f p).
Proof.
  intros Ha Hf (k & Hk & Hak & Hfin). exists k. split; [exact Hk|].
  split; [congruence|]. now rewrite Hf.
Qed.

Lemma timed_alter (f : Process -> Process) (r : nat) clk (n n' : nat) ps :
  (n <= n')%nat ->
  (forall p, stamped clk n p -> stamped clk n' (f p)) ->
  Forall (stamped clk n) ps -> Forall (stamped clk n') (alter f r ps).
Proof.
  intros Hle Hf Hall. apply Forall_lookup. intros i q Hq.
  destruct (decide (r = i)) as [->|Hne].
  - rewrite list_lookup_alter_eq in Hq.
    destruct (ps !! i) as [p|] eqn:E; [|discriminate].
    injection Hq as <-. apply Hf. eapply Forall_lookup_1; eassumption.
  - rewrite list_lookup_alter_ne in Hq by exact Hne.
    eapply stamped_more; [exact Hle|]. eapply Forall_lookup_1; eassumption.
Qed.

Lemma loop_body_timed algorithm s cycle s' cycle' :
  timed s -> loop_body algorithm s cycle = Continue s' cycle' -> timed s'.
Proof.
  intros Ht Hpass. apply loop_body_continue_session in Hpass.
  destruct Hpass as (r & p & Hp & _ & Hps & Hclk & Hticks & _).
  unfold timed. rewrite Hps, Hclk, Hticks, list_insert_alter.
  unfold ran. simpl.
  destruct (cpu_remaining p - 1 <=? 0).
  - apply (timed_alter _ r _ (ticks s)); [lia| |exact Ht].
    intros q Hq.
    apply (stamped_finished (clock s) (ticks s) (fun _ => _) p);
      [reflexivity|reflexivity|].
    eapply Forall_lookup_1; eassumption.
  - apply (timed_alter _ r _ (ticks s)); [lia| |exact Ht].
    intros q Hq.
    apply (stamped_same (clock s) (ticks s) (fun _ => _) p);
      [reflexivity|reflexivity|].
    eapply Forall_lookup_1; eassumption.
Qed.

(** A property of the table, the clock and the number of readings taken
    that every pass of the loop keeps is kept by a whole run. *)
Lemma run_simulation_keeps_session (Q : Session -> Prop) algorithm s :
  (forall s1 s2,
     processes (sys s2) = processes (sys s1) -> clock s2 = clock s1 ->
     ticks s2 = ticks s1 -> Q s1 -> Q s2) ->
  (forall s1 c1 s2 c2,
     Q s1 -> loop_body (lower algorithm) s1 c1 = Continue s2 c2 -> Q s2) ->
  Q s -> Q (run_simulation algorithm s).
Proof.
  intros Hsame Hpass HQ.
  destruct (run_simulation_leaves_loop algorithm s) as (how & Hloop & ->).
  set (s0 := print (MsgRunning (upper (lower algorithm))) s) in *.
  destruct (run_loop_invariant (fun s1 _ => Q s1) (lower algorithm))
    with (fuel := S (workload (sys s0))) (s := s0) (cycle := 0) (how := how)
    as (s1 & c1 & HQ1 & Hleave); [exact Hpass| |exact Hloop|].
  { apply (Hsame s); [reflexivity..|exact HQ]. }
  apply loop_body_leave in Hleave.
  destruct Hleave as (s' & Hhow & Hps & _ & _ & Hclk & Hticks).
  destruct (after_loop_frame how s') as (Hsys & Hclk' & Hticks').
  { destruct Hhow; eauto. }
  apply (Hsame s1); [now rewrite Hsys|congruence|congruence|exact HQ1].
Qed.

Lemma list_processes_same s :
  sys (list_processes s) = sys s /\ clock (list_processes s) = clock s /\
  ticks (list_processes s) = ticks s.
Proof.
  unfold list_processes. destruct (processes (sys s)); [repeat split|].
  set (s2 := print MsgTableRule (print MsgTableHeader s)).
  destruct (show_lines_frame table_row (processes (sys s2)) s2)
    as (H1 & H2 & H3 & _).
  exact (conj H1 (conj H2 H3)).
Qed.

Lemma perform_timed c s : timed s -> timed (perform c s).
Proof.
  intros H. destruct c as [n c m pr| |algorithm|w|w|w]; cbn [perform].
  - unfold timed. rewrite create_process_table.
    change (ticks (create_process n c m pr s)) with (S (ticks s)).
    change (clock (create_process n c m pr s)) with (clock s).
    apply Forall_app_2.
    + eapply Forall_impl; [exact H|].
      intros q Hq. eapply stamped_more; [|exact Hq]. lia.
    + apply Forall_singleton. exists (ticks s).
      split; [lia|]. split; [reflexivity|exact I].
  - destruct (list_processes_same s) as (H1 & H2 & H3).
    unfold timed. now rewrite H1, H2, H3.
  - apply (run_simulation_keeps_session timed); [| |exact H].
    + intros s1 s2 Hps Hclk Hticks. unfold timed. now rewrite Hps, Hclk, Hticks.
    + intros s1 c1 s2 c2 Ht Hpass. eapply loop_body_timed; eassumption.
  - unfold block_process.
    destruct (get_process_by_pid w (sys s)) as [r|]; [|exact H].
    destruct (state_is FINALIZADO (processes (sys s)) r); [exact H|].
    unfold timed. simpl.
    apply (timed_alter _ r _ (ticks s)); [lia| |exact H].
    intros q. now apply stamped_same.
  - unfold unblock_process.
    destruct (get_process_by_pid w (sys s)) as [r|]; [|exact H].
    destruct (state_is BLOQUEADO (processes (sys s)) r); [|exact H].
    unfold timed. simpl.
    apply (timed_alter _ r _ (ticks s)); [lia| |exact H].
    intros q. now apply stamped_same.
  - unfold kill_process.
    destruct (get_process_by_pid w (sys s)) as [r|]; [|exact H].
    unfold timed. simpl. rewrite !list_alter_alter_eq.
    apply (timed_alter _ r _ (ticks s)); [lia| |exact H].
    intros q. now apply stamped_finished.
Qed.

Lemma reachable_timed s : reachable s -> timed s.
Proof.
  induction 1 as [q clk|c s _ IH|algorithm s _ IH|algorithm s cycle s' cycle' _ IH Hpass].
  - constructor.
  - now apply perform_timed.
  - exact IH.
  - eapply loop_body_timed; eassumption.
Qed.

(** X18: the timing queries and the metrics where the arithmetic of the
    source is exact.  In a session that can be reached, let the readings
    the clock has delivered be increasing integers between 1 and 2^53, and
    take a process of total demand at most 2^53.  If it has a completion
    timestamp [f], it is Finished and was completed after it was created;
    the creation timestamp, [f], the total demand, the turnaround
    [f - arrival_time] (positive) and the waiting time
    [turnaround - cpu_time] are all integers a double holds exactly, the
    two queries return them, and the metrics have the line with both
    figures.  If it has none, it is not Finished, both queries return
    [None], and the metrics have the plain line. *)
Theorem metrics_under_advancing_clock s p :
  reachable s ->
  (forall a b : nat, (a < b < ticks s)%nat -> clock s a < clock s b) ->
  (forall a : nat, (a < ticks s)%nat -> 0 < clock s a <= 2 ^ 53) ->
  In p (processes (sys s)) ->
  cpu_time p <= 2 ^ 53 ->
  match finish_time p with
  | Some f =>
    state p = FINALIZADO /\
    arrival_time p < f /\
    exact_as_double (arrival_time p) /\ exact_as_double f /\
    exact_as_double (cpu_time p) /\
    exact_as_double (f - arrival_time p) /\
    exact_as_double (f - arrival_time p - cpu_time p) /\
    turnaround_time p = Some (f - arrival_time p) /\
    waiting_time p = Some (f - arrival_time p - cpu_time p) /\
    metrics_line p =
      MsgMetricsTimed (pid p) (name p) (state p)
        (Some (f - arrival_time p)) (Some (f - arrival_time p - cpu_time p))
  | None =>
    state p <> FINALIZADO /\
    turnaround_time p = None /\ waiting_time p = None /\
    metrics_line p = MsgMetricsPlain (pid p) (name p) (state p)
  end.
Proof.
  intros Hreach Hmono Hrange Hin Hcpu. apply list_elem_of_In in Hin.
  pose proof (reachable_sound s Hreach) as Hsound.
  pose proof (reachable_timed s Hreach) as Htimed. unfold timed in Htimed.
  rewrite Forall_forall in Hsound, Htimed.
  destruct (Hsound p Hin) as (Hone & _ & _ & H4 & H5).
  destruct (Htimed p Hin) as (k & Hk & Ha & Hf).
  destruct (finish_time p) as [f|] eqn:E.
  - destruct Hf as (j & Hj & ->).
    assert (Hfin : state p = FINALIZADO).
    { destruct (state p) eqn:Est; try reflexivity;
        destruct H5 as [_ H5]; congruence. }
    assert (Hlt : arrival_time p < clock s j) by (rewrite Ha; apply Hmono; lia).
    pose proof (Hrange k Hk) as Hrk. rewrite <- Ha in Hrk.
    pose proof (Hrange j (proj2 Hj)) as Hrj.
    destruct (timing_queries_nonzero p (clock s j) E) as [Ht Hw]; [lia|lia|].
    split; [exact Hfin|]. split; [exact Hlt|].
    unfold exact_as_double.
    split; [lia|]. split; [lia|]. split; [lia|]. split; [lia|]. split; [lia|].
    split; [exact Ht|]. split; [exact Hw|].
    unfold metrics_line. rewrite Ht, Hw. simpl.
    destruct (Z.eqb_spec (clock s j - arrival_time p) 0); [lia|reflexivity].
  - destruct (timing_queries_unset p E) as [Ht Hw].
    split.
    + intros Hfin. destruct (H4 Hfin) as [_ [t Ht']]. congruence.
    + split; [exact Ht|]. split; [exact Hw|].
      unfold metrics_line. now rewrite Ht.
Qed.

Lemma metrics_under_advancing_clock_witness :
  let s := perform_all
             [CmdCreate "A" 2 100 3; CmdCreate "B" 1 100 1; CmdRun "fifo"]
             (boot 2 steady_clock) in
  let p := {| pid := 1; name := "A"; cpu_time := 2; cpu_remaining := 0;
              memory := 100; priority := 3; state := FINALIZADO;
              arrival_time := 1000; finish_time := Some 1002 |} in
  reachable s /\
  In p (processes (sys s)) /\
  cpu_time p <= 2 ^ 53 /\
  turnaround_time p = Some (1002 - arrival_time p) /\
  waiting_time p = Some (1002 - arrival_time p - cpu_time p) /\
  exact_as_double (1002 - arrival_time p - cpu_time p).
Proof.
  intros s p.
  assert (Hreach : reachable s) by apply reachable_perform_all, reach_boot.
  assert (Hin : In p (processes (sys s))) by (vm_compute; left; reflexivity).
  assert (Hticks : ticks s = 4%nat) by (vm_compute; reflexivity).
  assert (Hmono : forall a b : nat, (a < b < ticks s)%nat -> clock s a < clock s b).
  { intros a b Hab. change (clock s) with steady_clock. unfold steady_clock. lia. }
  assert (Hrange : forall a : nat, (a < ticks s)%nat -> 0 < clock s a <= 2 ^ 53).
  { intros a Ha. rewrite Hticks in Ha.
    change (clock s) with steady_clock. unfold steady_clock. lia. }
  assert (Hcpu : cpu_time p <= 2 ^ 53) by (simpl; lia).
  pose proof (metrics_under_advancing_clock s p Hreach Hmono Hrange Hin Hcpu) as H.
  simpl in H. destruct H as (_ & _ & _ & _ & _ & _ & Hx & Ht & Hw & _).
  split; [exact Hreach|]. split; [exact Hin|]. split; [exact Hcpu|].
  split; [exact Ht|]. split; [exact Hw|exact Hx].
Defined.

End Timing.

(** ** Round-Robin with a queue that holds every Ready process *)

Section Rotation.

Implicit Types (s : Session) (o : OperatingSystem) (p : Process)
  (ps : list Process).

(** Whatever is Ready stays queued through a selection, if it was. *)
Lemma dispatch_covers algorithm o found o' :
  queue_covers o ->
  dispatch algorithm o = Some (found, o') ->
  forall j : nat, state_is PRONTO (processes o) j = true -> In j (rr_queue o').
Proof.
  intros Hcov. unfold dispatch, select_next_process_rr.
  assert (Hsame : forall j : nat,
            state_is PRONTO (processes o) j = true -> In j (rr_queue o))
    by (intros j Hj; now apply Hcov, ready_iff).
  destruct (String.eqb algorithm "fifo"); [now intros [= _ <-]|].
  destruct (String.eqb algorithm "sjf"); [now intros [= _ <-]|].
  destruct (String.eqb algorithm "prio"); [now intros [= _ <-]|].
  destruct (String.eqb algorithm "rr"); [|discriminate].
  pose proof (rr_pop_spec (processes o) (rr_queue o)) as Hpop.
  destruct (rr_pop (processes o) (rr_queue o)) as [[r|] rest];
    intros [= _ <-] j Hj; simpl; specialize (Hsame j Hj).
  - destruct Hpop as (skipped & Hq & Hsk & _). rewrite Hq in Hsame.
    rewrite in_app_iff in *. simpl in *.
    destruct Hsame as [Hin|[Hin|Hin]]; [|tauto|tauto].
    rewrite Forall_forall in Hsk. apply list_elem_of_In in Hin.
    specialize (Hsk j Hin). simpl in Hsk. congruence.
  - destruct Hpop as (_ & Hall).
    rewrite Forall_forall in Hall. apply list_elem_of_In in Hsame.
    specialize (Hall j Hsame). simpl in Hall. congruence.
Qed.

Lemma loop_body_covers algorithm s cycle :
  queue_covers (sys s) ->
  queue_covers (sys (pass_session (loop_body algorithm s cycle))).
Proof.
  intros Hcov. unfold loop_body.
  destruct (get_ready_processes (sys s)) eqn:E.
  { destruct (List.filter _ _); exact Hcov. }
  destruct (dispatch algorithm (sys s)) as [[[r|] o]|] eqn:D; simpl;
    [| |exact Hcov].
  - destruct (dispatch_frame _ _ _ _ D) as (Hps & _).
    pose proof (dispatch_covers _ _ _ _ Hcov D) as Hin.
    pose proof (dispatch_ready _ _ _ _ D) as Hr.
    intros j Hj. rewrite execute_queue. simpl.
    destruct (decide (j = r)) as [->|Hne]; [now apply Hin|].
    apply Hin. apply ready_iff in Hj.
    apply state_is_true in Hr. destruct Hr as (p & Hp & _).
    rewrite (execute_unfold r (cycle + 1) (with_sys (fun _ => o) s) p) in Hj
      by (simpl; now rewrite Hps).
    simpl in Hj. unfold state_is in *.
    rewrite list_lookup_insert_ne in Hj by congruence. now rewrite <- Hps.
  - destruct (dispatch_frame _ _ _ _ D) as (Hps & _).
    pose proof (dispatch_covers _ _ _ _ Hcov D) as Hin.
    intros j Hj. apply Hin. apply ready_iff in Hj. now rewrite <- Hps.
Qed.

(** X19: Round-Robin serves every Ready process to its end whenever its
    queue holds every Ready process when the run starts (in a session that
    can be reached): the cycle count of the summary is the remaining
    demands of the Ready processes added up, no process is Ready
    afterwards, and every process that was Ready is Finished with nothing
    left to run. *)
Theorem round_robin_serves_queued algorithm s :
  reachable s ->
  lower algorithm = "rr" ->
  queue_covers (sys s) ->
  let total := ready_demand (processes (sys s)) in
  let s0 := print (MsgRunning (upper (lower algorithm))) s in
  let s' := run_simulation algorithm s in
  (exists s1,
     run_loop (S (workload (sys s0))) (lower algorithm) s0 0 =
       Some (Break s1 total) /\
     s' = show_metrics (print (MsgConcluded total) s1)) /\
  In (MsgConcluded total) (stdout s') /\
  get_ready_processes (sys s') = [] /\
  (forall (i : nat) p,
     processes (sys s) !! i = Some p -> state p = PRONTO ->
     exists p',
       processes (sys s') !! i = Some p' /\ state p' = FINALIZADO /\
       cpu_remaining p' = 0 /\ finish_time p' <> None).
Proof.
  intros Hreach Halg Hcov.
  apply (run_to_idle queue_covers);
    [now apply reachable_sound|exact Hcov| |].
  - intros s1 c1 s2 c2 Hc Hpass.
    pose proof (loop_body_covers (lower algorithm) s1 c1 Hc) as H.
    now rewrite Hpass in H.
  - intros s1 c1 how Hc Hready Hleave. rewrite Halg in Hleave.
    unfold loop_body, dispatch, select_next_process_rr in Hleave.
    cbn [String.eqb Ascii.eqb Bool.eqb] in Hleave.
    pose proof (rr_pop_spec (processes (sys s1)) (rr_queue (sys s1))) as Hpop.
    destruct (get_ready_processes (sys s1)) as [|a l] eqn:E; [congruence|].
    destruct (rr_pop (processes (sys s1)) (rr_queue (sys s1))) as [[r|] rest];
      [discriminate|].
    destruct Hpop as (_ & Hall).
    assert (Ha : In a (get_ready_processes (sys s1))) by (rewrite E; now left).
    pose proof (Hc a Ha) as Hq. apply ready_iff in Ha.
    rewrite Forall_forall in Hall. apply list_elem_of_In in Hq.
    specialize (Hall a Hq). simpl in Hall. congruence.
Qed.

Lemma round_robin_serves_queued_witness :
  let s := perform_all
             [CmdCreate "A" 3 100 3; CmdCreate "B" 2 100 1; CmdCreate "C" 4 10 2;
              CmdBlock 2] (boot 2 steady_clock) in
  reachable s /\
  queue_covers (sys s) /\
  ready_demand (processes (sys s)) = 7 /\
  In (MsgConcluded 7) (stdout (run_simulation "RR" s)) /\
  get_ready_processes (sys (run_simulation "RR" s)) = [].
Proof.
  intros s.
  assert (Hreach : reachable s) by apply reachable_perform_all, reach_boot.
  assert (Hcov : queue_covers (sys s)).
  { intros j Hj. vm_compute in Hj |- *. tauto. }
  destruct (round_robin_serves_queued "RR" s Hreach eq_refl Hcov)
    as (_ & H2 & H3 & _).
  split; [exact Hreach|]. split; [exact Hcov|].
  split; [vm_compute; reflexivity|]. split; [exact H2|exact H3].
Defined.

Lemma perform_covers c s :
  (forall w, c <> CmdUnblock w) ->
  queue_covers (sys s) -> queue_covers (sys (perform c s)).
Proof.
  intros Hc Hcov. destruct c as [n c m pr| |algorithm|w|w|w]; cbn [perform].
  - intros j Hj. apply ready_iff in Hj.
    change (rr_queue (sys (create_process n c m pr s)))
      with (rr_queue (sys s) ++ [length (processes (sys s))]).
    rewrite create_process_table in Hj. apply in_app_iff.
    apply state_is_true in Hj. destruct Hj as (q & Hq & Hst).
    apply lookup_app_Some in Hq. destruct Hq as [Hq|[Hge Hq]].
    + left. apply Hcov, ready_iff, state_is_true. eauto.
    + right. left.
      destruct (j - length (processes (sys s)))%nat eqn:E; [lia|discriminate].
  - now rewrite list_processes_frame.
  - apply (run_simulation_keeps_sys queue_covers); [|exact Hcov].
    intros s1 c1. apply loop_body_covers.
  - unfold block_process.
    destruct (get_process_by_pid w (sys s)) as [r|]; [|exact Hcov].
    destruct (state_is FINALIZADO (processes (sys s)) r); [exact Hcov|].
    intros j Hj. apply ready_iff, state_is_true in Hj.
    destruct Hj as (q & Hq & Hst). simpl in *.
    apply Hcov, ready_iff, state_is_true.
    destruct (decide (r = j)) as [->|Hne].
    + rewrite list_lookup_alter_eq in Hq.
      destruct (processes (sys s) !! j); [|discriminate].
      injection Hq as <-. discriminate.
    + rewrite list_lookup_alter_ne in Hq by exact Hne. eauto.
  - destruct (Hc w eq_refl).
  - unfold kill_process.
    destruct (get_process_by_pid w (sys s)) as [r|]; [|exact Hcov].
    intros j Hj. apply ready_iff, state_is_true in Hj.
    destruct Hj as (q & Hq & Hst). simpl in *.
    rewrite !list_alter_alter_eq in Hq.
    apply Hcov, ready_iff, state_is_true.
    destruct (decide (r = j)) as [->|Hne].
    + rewrite list_lookup_alter_eq in Hq.
      destruct (processes (sys s) !! j); [|discriminate].
      injection Hq as <-. discriminate.
    + rewrite list_lookup_alter_ne in Hq by exact Hne. eauto.
Qed.

(** X20: as long as no process is unblocked, the rotation queue holds
    every Ready process: creation, listing, blocking, killing and runs
    under any name keep it so, from a fresh session on. *)
Theorem queue_covers_without_unblock quantum clk cs :
  Forall (fun c => forall w, c <> CmdUnblock w) cs ->
  queue_covers (sys (perform_all cs (boot quantum clk))).
Proof.
  assert (H : forall s, queue_covers (sys s) ->
            Forall (fun c => forall w, c <> CmdUnblock w) cs ->
            queue_covers (sys (perform_all cs s))).
  { induction cs as [|c cs IH]; intros s Hcov Hall; [exact Hcov|].
    simpl. apply Forall_cons in Hall. destruct Hall as [Hc Hall].
    apply IH; [|exact Hall]. now apply perform_covers. }
  apply H. intros j [].
Qed.

Lemma queue_covers_without_unblock_witness :
  let cs := [CmdCreate "A" 3 100 3; CmdCreate "B" 2 100 1; CmdBlock 1;
             CmdRun "rr"; CmdKill 2; CmdCreate "C" 1 1 1] in
  Forall (fun c => forall w, c <> CmdUnblock w) cs /\
  queue_covers (sys (perform_all cs (boot 2 steady_clock))).
Proof.
  intros cs.
  assert (Hall : Forall (fun c => forall w, c <> CmdUnblock w) cs)
    by (repeat constructor; discriminate).
  split; [exact Hall|].
  exact (queue_covers_without_unblock 2 steady_clock cs Hall).
Defined.

(** X21: blocking twice is blocking once, and unblocking twice is
    unblocking once, in any session and for any identifier, found or not:
    the operating system after the second call is the one after the first,
    no call reads the clock, and each call adds one notice to the console.
    The second [block_process] repeats the notice of the first; the second
    [unblock_process] says not found again, or else that the process is not
    blocked. *)
Theorem block_and_unblock_are_idempotent wanted s :
  (sys (block_process wanted (block_process wanted s)) =
     sys (block_process wanted s) /\
   ticks (block_process wanted s) = ticks s /\
   ticks (block_process wanted (block_process wanted s)) = ticks s /\
   exists notice,
     (notice = MsgNotFound wanted \/ notice = MsgAlreadyFinished wanted \/
      notice = MsgBlocked wanted) /\
     stdout (block_process wanted s) = stdout s ++ [notice] /\
     stdout (block_process wanted (block_process wanted s)) =
       stdout s ++ [notice; notice]) /\
  (sys (unblock_process wanted (unblock_process wanted s)) =
     sys (unblock_process wanted s) /\
   ticks (unblock_process wanted s) = ticks s /\
   ticks (unblock_process wanted (unblock_process wanted s)) = ticks s /\
   exists first second,
     (first = MsgNotFound wanted /\ second = MsgNotFound wanted \/
      first = MsgUnblocked wanted /\ second = MsgNotBlocked wanted \/
      first = MsgNotBlocked wanted /\ second = MsgNotBlocked wanted) /\
     stdout (unblock_process wanted s) = stdout s ++ [first] /\
     stdout (unblock_process wanted (unblock_process wanted s)) =
       stdout s ++ [first; second]).
Proof.
  assert (Hfind : forall (f : Process -> Process) (r : nat) l,
            (forall p, pid (f p) = pid p) ->
            get_process_by_pid wanted (sys (print l (mutate r f s))) =
            get_process_by_pid wanted (sys s)).
  { intros f r l Hf. unfold get_process_by_pid. simpl.
    now apply find_pid_alter. }
  assert (Hstate : forall (v st : ProcessState) (r : nat) l,
            v <> st ->
            state_is st (processes (sys (print l (mutate r (set_state v) s)))) r
            = false).
  { intros v st r l Hne. unfold state_is. simpl. rewrite list_lookup_alter_eq.
    destruct (processes (sys s) !! r); simpl; [|reflexivity].
    now apply state_eqb_neq. }
  split.
  - destruct (get_process_by_pid wanted (sys s)) as [r|] eqn:Hr.
    + destruct (state_is FINALIZADO (processes (sys s)) r) eqn:E.
      * assert (Hb : block_process wanted s = print (MsgAlreadyFinished wanted) s)
          by (unfold block_process; now rewrite Hr, E).
        assert (Hbb : block_process wanted (block_process wanted s) =
                  print (MsgAlreadyFinished wanted)
                    (print (MsgAlreadyFinished wanted) s)).
        { rewrite Hb. unfold block_process. cbn [sys print]. now rewrite Hr, E. }
        rewrite Hbb, Hb. split; [reflexivity|]. split; [reflexivity|].
        split; [reflexivity|]. exists (MsgAlreadyFinished wanted).
        split; [tauto|]. split; [reflexivity|]. simpl. now rewrite <- app_assoc.
      * assert (Hb : block_process wanted s =
                  print (MsgBlocked wanted) (mutate r (set_state BLOQUEADO) s))
          by (unfold block_process; now rewrite Hr, E).
        assert (Hbb : block_process wanted (block_process wanted s) =
                  print (MsgBlocked wanted)
                    (mutate r (set_state BLOQUEADO)
                       (print (MsgBlocked wanted)
                          (mutate r (set_state BLOQUEADO) s)))).
        { rewrite Hb. unfold block_process at 1.
          rewrite Hfind by reflexivity. rewrite ?Hr.
          now rewrite Hstate by discriminate. }
        rewrite Hbb, Hb. split.
        { simpl. unfold mutate_os. simpl. f_equal.
          rewrite list_alter_alter_eq. now apply list_alter_ext. }
        split; [reflexivity|]. split; [reflexivity|].
        exists (MsgBlocked wanted).
        split; [tauto|]. split; [reflexivity|]. simpl. now rewrite <- app_assoc.
    + assert (Hb : block_process wanted s = print (MsgNotFound wanted) s)
        by (unfold block_process; now rewrite Hr).
      assert (Hbb : block_process wanted (block_process wanted s) =
                print (MsgNotFound wanted) (print (MsgNotFound wanted) s)).
      { rewrite Hb. unfold block_process. cbn [sys print]. now rewrite Hr. }
      rewrite Hbb, Hb. split; [reflexivity|]. split; [reflexivity|].
      split; [reflexivity|]. exists (MsgNotFound wanted).
      split; [tauto|]. split; [reflexivity|]. simpl. now rewrite <- app_assoc.
  - destruct (get_process_by_pid wanted (sys s)) as [r|] eqn:Hr.
    + destruct (state_is BLOQUEADO (processes (sys s)) r) eqn:E.
      * assert (Hu : unblock_process wanted s =
                  print (MsgUnblocked wanted) (mutate r (set_state PRONTO) s))
          by (unfold unblock_process; now rewrite Hr, E).
        assert (Huu : unblock_process wanted (unblock_process wanted s) =
                  print (MsgNotBlocked wanted)
                    (print (MsgUnblocked wanted)
                       (mutate r (set_state PRONTO) s))).
        { rewrite Hu. unfold unblock_process at 1.
          rewrite Hfind by reflexivity. rewrite ?Hr.
          now rewrite Hstate by discriminate. }
        rewrite Huu, Hu. split; [reflexivity|]. split; [reflexivity|].
        split; [reflexivity|].
        exists (MsgUnblocked wanted), (MsgNotBlocked wanted).
        split; [tauto|]. split; [reflexivity|]. simpl. now rewrite <- app_assoc.
      * assert (Hu : unblock_process wanted s = print (MsgNotBlocked wanted) s)
          by (unfold unblock_process; now rewrite Hr, E).
        assert (Huu : unblock_process wanted (unblock_process wanted s) =
                  print (MsgNotBlocked wanted) (print (MsgNotBlocked wanted) s)).
        { rewrite Hu. unfold unblock_process. cbn [sys print]. now rewrite Hr, E. }
        rewrite Huu, Hu. split; [reflexivity|]. split; [reflexivity|].
        split; [reflexivity|].
        exists (MsgNotBlocked wanted), (MsgNotBlocked wanted).
        split; [tauto|]. split; [reflexivity|]. simpl. now rewrite <- app_assoc.
    + assert (Hu : unblock_process wanted s = print (MsgNotFound wanted) s)
        by (unfold unblock_process; now rewrite Hr).
      assert (Huu : unblock_process wanted (unblock_process wanted s) =
                print (MsgNotFound wanted) (print (MsgNotFound wanted) s)).
      { rewrite Hu. unfold unblock_process. cbn [sys print]. now rewrite Hr. }
      rewrite Huu, Hu. split; [reflexivity|]. split; [reflexivity|].
      split; [reflexivity|].
      exists (MsgNotFound wanted), (MsgNotFound wanted).
      split; [tauto|]. split; [reflexivity|]. simpl. now rewrite <- app_assoc.
Qed.

(** X22: the ready set is the Ready processes of the table, each once
    and in the order of the table: a position is in it exactly when the
    process there is Ready, and wherever the list is cut, what comes before
    the cut is earlier in the table and what comes after is later. *)
Theorem ready_set_in_table_order o :
  (forall j : nat,
     In j (get_ready_processes o) <->
     exists p, processes o !! j = Some p /\ state p = PRONTO) /\
  (forall pre (m : nat) post,
     get_ready_processes o = pre ++ m :: post ->
     (forall x, In x pre -> (x < m)%nat) /\
     (forall x, In x post -> (m < x)%nat)).
Proof.
  split.
  - intros j. rewrite ready_iff. apply state_is_true.
  - intros pre m post. unfold get_ready_processes. apply filter_seq_split.
Qed.

End Rotation.

(** ** Algorithm names *)

Section Names.

Implicit Types (s : Session) (o : OperatingSystem) (p : Process).

Lemma dispatch_known algorithm o :
  known_algorithm algorithm = true -> dispatch algorithm o <> None.
Proof.
  unfold known_algorithm, dispatch, select_next_process_rr.
  destruct (String.eqb algorithm "fifo"); [discriminate|].
  destruct (String.eqb algorithm "sjf"); [discriminate|].
  destruct (String.eqb algorithm "prio"); [discriminate|].
  destruct (String.eqb algorithm "rr"); [|discriminate].
  intros _. destruct (rr_pop (processes o) (rr_queue o)) as [[c|] rest];
    discriminate.
Qed.

(** Under a known name the loop is left by [break] only, and the pass
    that leaves it prints no notice of an invalid algorithm. *)
Lemma loop_body_leave_known algorithm s cycle how :
  known_algorithm algorithm = true ->
  loop_body algorithm s cycle = Leave how ->
  exists s' tail,
    how = Break s' cycle /\
    stdout s' = stdout s ++ tail /\
    forall a, ~ In (MsgInvalidAlgorithm a) tail.
Proof.
  intros Hknown. unfold loop_body.
  destruct (get_ready_processes (sys s)).
  { destruct (List.filter _ _); intros [= <-]; eexists; eexists;
      (split; [reflexivity|]); (split; [reflexivity|]);
      intros a [H|[]]; discriminate. }
  pose proof (dispatch_known algorithm (sys s) Hknown) as Hd.
  destruct (dispatch algorithm (sys s)) as [[[r|] o]|];
    [discriminate| |congruence].
  intros [= <-]. exists (with_sys (fun _ => o) s), [].
  split; [reflexivity|]. split; [simpl; now rewrite app_nil_r|intros a []].
Qed.

Lemma metrics_lines_valid ps a :
  ~ In (MsgInvalidAlgorithm a) (map metrics_line ps).
Proof.
  rewrite in_map_iff. intros (p & Hp & _). unfold metrics_line in Hp.
  destruct (truthy (turnaround_time p)); discriminate.
Qed.

(** A run under a known name, in any spelling: the loop is left by
    [break], the summary and the metrics follow, and no line of the run is
    the notice of an invalid algorithm. *)
Lemma known_algorithm_runs algorithm s :
  known_algorithm (lower algorithm) = true ->
  let s0 := print (MsgRunning (upper (lower algorithm))) s in
  (exists s1 cycle,
     run_loop (S (workload (sys s0))) (lower algorithm) s0 0 =
       Some (Break s1 cycle) /\
     run_simulation algorithm s = show_metrics (print (MsgConcluded cycle) s1)) /\
  (forall a,
     In (MsgInvalidAlgorithm a) (stdout (run_simulation algorithm s)) ->
     In (MsgInvalidAlgorithm a) (stdout s)).
Proof.
  intros Hknown s0.
  destruct (run_simulation_leaves_loop algorithm s) as (how & Hloop & Hrun).
  fold s0 in Hloop.
  destruct (run_loop_invariant
              (fun s1 _ =>
                 exists lines,
                   stdout s1 = stdout s ++ lines /\
                   forall a, ~ In (MsgInvalidAlgorithm a) lines)
              (lower algorithm))
    with (fuel := S (workload (sys s0))) (s := s0) (cycle := 0) (how := how)
    as (s1 & c1 & (lines & Hout & Hvalid) & Hleave); [| |exact Hloop|].
  { intros s1 c1 s2 c2 (lines & Hout & Hvalid) Hpass.
    apply loop_body_continue_session in Hpass.
    destruct Hpass as (r & p & _ & _ & _ & _ & _ & Hout2 & _).
    eexists. split; [rewrite Hout2, Hout, <- app_assoc; reflexivity|].
    intros a Hin. apply in_app_iff in Hin. destruct Hin as [Hin|Hin].
    - exact (Hvalid a Hin).
    - destruct (cpu_remaining p - 1 <=? 0); simpl in Hin;
        decompose [or] Hin; try discriminate; assumption. }
  { exists [MsgRunning (upper (lower algorithm))].
    split; [reflexivity|]. intros a [H|[]]. discriminate. }
  apply (loop_body_leave_known _ _ _ _ Hknown) in Hleave.
  destruct Hleave as (s' & tail & -> & Hout' & Hvalid').
  split; [exists s', c1; split; [exact Hloop|exact Hrun]|].
  intros a. rewrite Hrun. simpl.
  destruct (show_metrics_frame (print (MsgConcluded c1) s')) as (_ & _ & _ & ->).
  simpl. rewrite Hout', Hout, !in_app_iff. simpl.
  intros [[[[Hin|Hin]|Hin]|[Hin|[]]]|[Hin|Hin]].
  - exact Hin.
  - destruct (Hvalid a Hin).
  - destruct (Hvalid' a Hin).
  - discriminate.
  - discriminate.
  - destruct (metrics_lines_valid _ _ Hin).
Qed.

(** C9: the algorithm name is lowered before it is looked at, so a run
    under any spelling of a name is the run under its lowercase form; in
    particular [FIFO] is the FIFO policy and is not rejected.  A run under
    any spelling of one of the four names leaves the loop by [break], goes
    on to the summary and the metrics, and prints no notice of an invalid
    algorithm; the first pass of a run under [FIFO] runs the process
    [select_next_process_fifo] returns; and from a session that can be
    reached a run under [FIFO] serves every Ready process to its end, the
    summary counting their remaining demands.  The equation between the two
    runs holds whatever [str.lower] and [str.upper] do to a name, as long as
    lowering twice is lowering once. *)
Theorem run_simulation_case_insensitive :
  (forall algorithm s,
     run_simulation algorithm s = run_simulation (lower algorithm) s) /\
  lower "FIFO" = "fifo" /\
  (forall s, run_simulation "FIFO" s = run_simulation "fifo" s) /\
  (forall o, dispatch (lower "FIFO") o = Some (select_next_process_fifo o, o)) /\
  (forall algorithm s,
     known_algorithm (lower algorithm) = true ->
     let s0 := print (MsgRunning (upper (lower algorithm))) s in
     (exists s1 cycle,
        run_loop (S (workload (sys s0))) (lower algorithm) s0 0 =
          Some (Break s1 cycle) /\
        run_simulation algorithm s =
          show_metrics (print (MsgConcluded cycle) s1)) /\
     (forall a,
        In (MsgInvalidAlgorithm a) (stdout (run_simulation algorithm s)) ->
        In (MsgInvalidAlgorithm a) (stdout s))) /\
  known_algorithm (lower "FIFO") = true /\
  (forall s (r : nat),
     select_next_process_fifo (sys s) = Some r ->
     let s0 := print (MsgRunning "FIFO") s in
     loop_body (lower "FIFO") s0 0 = Continue (execute r 1 s0) 1) /\
  (forall s,
     reachable s ->
     let total := ready_demand (processes (sys s)) in
     let s' := run_simulation "FIFO" s in
     In (MsgConcluded total) (stdout s') /\
     get_ready_processes (sys s') = [] /\
     forall (i : nat) p,
       processes (sys s) !! i = Some p -> state p = PRONTO ->
       exists p',
         processes (sys s') !! i = Some p' /\ state p' = FINALIZADO /\
         cpu_remaining p' = 0 /\ finish_time p' <> None) /\
  (forall low up : string -> string,
     (forall x, low (low x) = low x) ->
     forall algorithm s,
       run_simulation_under low up algorithm s =
       run_simulation_under low up (low algorithm) s) /\
  (forall algorithm s,
     run_simulation_under lower upper algorithm s = run_simulation algorithm s).
Proof.
  assert (H : forall algorithm s,
            run_simulation algorithm s = run_simulation (lower algorithm) s).
  { intros algorithm s. unfold run_simulation.
    now rewrite lower_idempotent. }
  split; [exact H|]. split; [reflexivity|].
  split; [exact (H "FIFO")|]. split; [intros o; reflexivity|].
  split; [exact known_algorithm_runs|]. split; [reflexivity|].
  split; [|split; [|split]].
  - intros s r Hsel s0. unfold loop_body.
    change (sys s0) with (sys s).
    change (dispatch (lower "FIFO") (sys s))
      with (Some (select_next_process_fifo (sys s), sys s)).
    rewrite Hsel. unfold select_next_process_fifo in Hsel.
    destruct (get_ready_processes (sys s)); [discriminate|reflexivity].
  - intros s Hreach total s'.
    assert (Halg : lower "FIFO" = "fifo" \/ lower "FIFO" = "sjf" \/
                   lower "FIFO" = "prio") by (left; reflexivity).
    destruct (run_to_idle (fun _ => True) "FIFO" s)
      as (_ & H2 & H3 & H4); [now apply reachable_sound|exact I|auto| |auto].
    intros s1 c1 how _ Hready Hleave.
    destruct (dispatch_serves (lower "FIFO") (sys s1) Halg Hready) as (r & Hd).
    unfold loop_body in Hleave. rewrite Hd in Hleave.
    destruct (get_ready_processes (sys s1)); [congruence|discriminate].
  - intros low up Hidem algorithm s. unfold run_simulation_under.
    now rewrite Hidem.
  - reflexivity.
Qed.

Lemma run_simulation_case_insensitive_witness :
  let s := perform_all [CmdCreate "A" 2 100 3; CmdCreate "B" 1 100 1]
             (boot 2 steady_clock) in
  reachable s /\
  known_algorithm (lower "FIFO") = true /\
  select_next_process_fifo (sys s) = Some 0%nat /\
  loop_body (lower "FIFO") (print (MsgRunning "FIFO") s) 0 =
    Continue (execute 0 1 (print (MsgRunning "FIFO") s)) 1 /\
  In (MsgConcluded 3) (stdout (run_simulation "FIFO" s)) /\
  (forall a, ~ In (MsgInvalidAlgorithm a) (stdout (run_simulation "FIFO" s))).
Proof.
  intros s.
  assert (Hreach : reachable s) by apply reachable_perform_all, reach_boot.
  assert (Hsel : select_next_process_fifo (sys s) = Some 0%nat)
    by (vm_compute; reflexivity).
  destruct run_simulation_case_insensitive
    as (_ & _ & _ & _ & Hknown & Hfifo & Hfirst & Hserve & _).
  destruct (Hknown "FIFO" s Hfifo) as (_ & Hvalid).
  destruct (Hserve s Hreach) as (Hcount & _).
  split; [exact Hreach|]. split; [exact Hfifo|]. split; [exact Hsel|].
  split; [exact (Hfirst s 0%nat Hsel)|]. split; [exact Hcount|].
  intros a Hin. apply Hvalid in Hin. vm_compute in Hin.
  decompose [or] Hin; try discriminate; assumption.
Defined.

End Names.
